(** * pxt-gestures: the gesture store ([app/src/gesture-store.ts])

    A shallow embedding of class [GestureStore] and of the helpers of its
    file ([createLowPassFilter], [debounce], [parseString]), followed by the
    properties of the store that its specification lists.

    JavaScript values are modelled as follows.
    - [number]: integer-valued counters and indices ([latestTimestamp],
      [curGestureIndex], [gestureID], match ticks, timer deadlines) are [Z];
      accelerometer values, which go through the low-pass filter, are
      binary64 floats ([float]).
    - Arrays are [list]s.  The observable array [this.gestures] is an object
      with identity: the store holds a reference into a heap of arrays, and
      the array holds references to [Gesture] objects, so [indexOf] compares
      references and an in-place [push]/[splice] is seen through every alias.
      Assigning an array to [this.gestures] makes the store reference that
      array (MobX wraps it in a new observable array: either way it is not
      the array referenced before).
    - [this.idToType], an object used as a map, is a [gmap string string].
    - A statement that can throw ([undefined.samples], [JSON.parse]) is an
      action of a state-and-exception monad; the state reached when the
      exception escapes is kept.
    - [console.log] has no effect on the state and is left out.  The
      [@computed] getters are read as plain getters. *)

From Stdlib Require Import ZArith Floats Lia.
From stdpp Require Import gmap strings list pretty.

Open Scope Z_scope.

(** ** JavaScript arrays *)

Section JsArray.
Context {A : Type}.

(** [arr[i]]: [undefined] out of range. *)
Definition js_get (arr : list A) (i : Z) : option A :=
  if i <? 0 then None else arr !! Z.to_nat i.

(** [arr.findIndex(p)] *)
Fixpoint findIndex (p : A → bool) (arr : list A) : Z :=
  match arr with
  | [] => -1
  | x :: rest =>
      if p x then 0
      else let r := findIndex p rest in if r <? 0 then -1 else 1 + r
  end.

(** [arr.indexOf(x)], strict equality (reference equality on objects). *)
Definition indexOf `{EqDecision A} (x : A) (arr : list A) : Z :=
  findIndex (λ y, bool_decide (y = x)) arr.

(** [arr.splice(start, 1)]: a negative [start] counts from the end, a
    [start] past the end removes nothing. *)
Definition splice1 (start : Z) (arr : list A) : list A :=
  let len := Z.of_nat (length arr) in
  let s := if start <? 0 then Z.max (len + start) 0 else Z.min start len in
  delete (Z.to_nat s) arr.

(** [arr.push(x)], [arr.unshift(x)], [arr.shift()] *)
Definition push (x : A) (arr : list A) : list A := arr ++ [x].
Definition unshift (x : A) (arr : list A) : list A := x :: arr.
Definition shift (arr : list A) : list A := tail arr.
End JsArray.

(** ** Statements that read and write the state and may throw *)

Inductive JsError := TypeError | SyntaxError.

Inductive Completion (A : Type) :=
| Normal (a : A)
| Thrown (e : JsError).
Arguments Normal {A} a.
Arguments Thrown {A} e.

Definition Eff (S A : Type) : Type := S → Completion A * S.

Section Eff.
Context {S : Type}.

Definition ret {A} (a : A) : Eff S A := λ s, (Normal a, s).

Definition bind {A B} (m : Eff S A) (k : A → Eff S B) : Eff S B :=
  λ s, match m s with
       | (Normal a, s') => k a s'
       | (Thrown e, s') => (Thrown e, s')
       end.

Definition throw {A} (e : JsError) : Eff S A := λ s, (Thrown e, s).
Definition gets {A} (f : S → A) : Eff S A := λ s, (Normal (f s), s).
Definition modify (f : S → S) : Eff S unit := λ s, (Normal tt, f s).

(** Property access on a value that may be [undefined]. *)
Definition deref {A} (o : option A) : Eff S A :=
  match o with Some a => ret a | None => throw TypeError end.

(** [arr.map(f)] for a callback with effects. *)
Fixpoint mapM {A B} (f : A → Eff S B) (l : list A) : Eff S (list B) :=
  match l with
  | [] => ret []
  | x :: rest => bind (f x) (λ y, bind (mapM f rest) (λ ys, ret (y :: ys)))
  end.

(** The state in which a statement ends, whether it returns or throws. *)
Definition exec {A} (m : Eff S A) (s : S) : S := (m s).2.
End Eff.

#[global] Instance Eff_ret {S} : MRet (Eff S) := λ A, ret.
#[global] Instance Eff_bind {S} : MBind (Eff S) := λ A B k m, bind m k.

(** ** motion.ts: the data classes *)

Record MotionReading := mkReading { accelX : float; accelY : float; accelZ : float }.

(** A recognised occurrence, an interval of ticks. *)
Record Match := mkMatch { startTime : Z; endTime : Z }.

(** [GestureExampleData] objects are only compared by reference and handed
  to the matcher, so the type of (references to) them is left open. *)
Record Gesture (Example : Type) := mkGesture {
gestureID : Z;
name : string;
samples : list Example;
displayGesture : Example }.
Arguments mkGesture {Example}.
Arguments gestureID {Example}.
Arguments name {Example}.
Arguments samples {Example}.
Arguments displayGesture {Example}.

(** What [JSON.parse] returns. *)
#[warnings="-register-all"] Inductive JsValue :=
| JNull
| JBool (b : bool)
| JNum (n : float)
| JStr (s : string)
| JArr (items : list JsValue)
| JObj (fields : list (string * JsValue)).

(** JavaScript truthiness of a parsed value: [null], [false], [0], [NaN]
  and the empty string are falsy; every array and object is truthy. *)
Definition truthy (v : JsValue) : bool :=
match v with
| JNull => false
| JBool b => b
| JNum n => negb (PrimFloat.eqb n 0 || PrimFloat.is_nan n)
| JStr s => negb (String.eqb s EmptyString)
| JArr _ | JObj _ => true
end.

(** ** The collaborators of the store

    The classes of [model.ts] and [motion.ts], and the built-ins of the
    platform, are interfaces: the store is verified for every
    implementation of them. *)

(** [model.ts], class [SingleDTWCore].  [update] and [feed] change the
    matcher they are called on; here they return the changed matcher. *)
Class DTWCore (Example Cropped Core : Type) := {
  newCore : Z → string → Core;
  update : Core → Cropped → Z → Core;
  prototype : Core → Example;
  isRunning : Core → bool;
  feed : Core → MotionReading → Core * option Match;
  generateBlock : Core → string;
  generateNamespace : list string → string }.

(** [motion.ts], class [Gesture] beyond its fields.  The constructor takes
    no argument, so what it builds depends on the static state of the class
    only; [parseGesture] returns [None] when it throws. *)
Class GestureClass (Example Cropped Static : Type) := {
  newGesture : Static → Gesture Example * Static;
  parseGesture : JsValue → Static → option (Gesture Example) * Static;
  getCroppedData : Gesture Example → Cropped }.

(** Built-ins.  [Math_random n] is the string of the [n]-th number drawn
    from [Math.random()]; [JSON_parse] returns [None] on a syntax error;
    [parseInt] of an absent token is [parseInt(undefined)]. *)
Class Platform (Example : Type) := {
  JSON_parse : string → option JsValue;
  JSON_stringify : list (Gesture Example) → string;
  Math_random : nat → string;
  parseInt : option string → float }.

(** ** The state *)

(** References to array objects and to [Gesture] objects. *)
Abbreviation loc := nat.

(** The body of an [extwritecode] request. *)
Record WriteBody := mkWriteBody { body_code : string; body_json : string }.

(** The envelope that [sendRequest] posts to the host. *)
Record Envelope := mkEnvelope {
  env_type : string;
  env_action : string;
  env_extId : string;
  env_response : bool;
  env_id : string;
  env_body : option WriteBody }.

(** An inbound message: [event] for an event; [id] for a response;
    [cons_body] is [body] of a console event ([sim], [data]); [resp] is
    [resp] of a read-code response ([code], [json]). *)
Record ExtensionMessage := mkMessage {
  msg_type : string;
  msg_event : option string;
  msg_id : string;
  msg_cons_body : option (bool * string);
  msg_resp : option (string * option string) }.

(** What [parseString] returns. *)
Record SensorData := mkSensorData { acc : bool; accVec : MotionReading }.

(** [READING_HISTORY_LIMIT] *)
Definition READING_HISTORY_LIMIT : Z := 30.

(** The function that [createLowPassFilter()] returns, as a function of
    the value and of [previousSmoothed]; the result is also the next
    [previousSmoothed]. *)
Definition lowPass (value previousSmoothed : float) : float :=
  let alpha := 0.5%float in
  (alpha * value + (1 - alpha) * previousSmoothed)%float.
Arguments lowPass : simpl never.

(** [s.split(sep)] for a separator of one character. *)
Fixpoint split (sep : Ascii.ascii) (s : string) : list string :=
  match s with
  | EmptyString => [EmptyString]
  | String c rest =>
      if Ascii.eqb c sep then EmptyString :: split sep rest
      else match split sep rest with
           | tok :: toks => String c tok :: toks
           | [] => [String c EmptyString]
           end
  end.

(** A value that is [undefined], [null] or the empty string is falsy. *)
Definition nonempty (o : option string) : bool :=
  match o with
  | Some s => negb (String.eqb s EmptyString)
  | None => false
  end.

Section Store.
Context {Example Cropped Core Static : Type}.
Context `{EqDecision Example}.
Context `{!DTWCore Example Cropped Core}.
Context `{!GestureClass Example Cropped Static}.
Context `{!Platform Example}.

(** The fields of class [GestureStore], in the order of the source, and
    the variables captured by the closures it holds: [timeout] of the
    debounced [saveBlocks], and [previousSmoothed] of the three low-pass
    filters. *)
Record GestureStore := mkStore {
  gestures : loc;
  connected : option bool;
  hasBeenModified : bool;
  readings : list MotionReading;
  latestTimestamp : Z;
  matches : list Match;
  models : list Core;
  idToType : gmap string string;
  extId : string;
  curGestureIndex : Z;
  timeout : option nat;
  filterX : float;
  filterY : float;
  filterZ : float }.

(** What the store lives in: the heap of array and [Gesture] objects, the
    static state of class [Gesture], the timers of the window (identifier
    and deadline, in the order they were set; the only callback ever
    scheduled is [later] of [saveBlocks]), the messages posted to the
    parent window, whether there is a parent window, and how many random
    numbers were drawn. *)
Record Host := mkHost {
  arrays : list (list loc);
  objects : list (Gesture Example);
  gestureStatic : Static;
  clock : Z;
  timers : list (nat * Z);
  timerCount : nat;
  posted : list Envelope;
  inFrame : bool;
  randomCount : nat }.

Record World := mkWorld { this : GestureStore; host : Host }.

Definition set_gestures (v : loc) (r : GestureStore) : GestureStore :=
  mkStore v (connected r) (hasBeenModified r) (readings r)
    (latestTimestamp r) (matches r) (models r) (idToType r) (extId r)
    (curGestureIndex r) (timeout r) (filterX r) (filterY r) (filterZ r).
Definition set_connected (v : option bool) (r : GestureStore) : GestureStore :=
  mkStore (gestures r) v (hasBeenModified r) (readings r) (latestTimestamp r)
    (matches r) (models r) (idToType r) (extId r) (curGestureIndex r)
    (timeout r) (filterX r) (filterY r) (filterZ r).
Definition set_hasBeenModified (v : bool) (r : GestureStore) : GestureStore :=
  mkStore (gestures r) (connected r) v (readings r) (latestTimestamp r)
    (matches r) (models r) (idToType r) (extId r) (curGestureIndex r)
    (timeout r) (filterX r) (filterY r) (filterZ r).
Definition set_readings (v : list MotionReading) (r : GestureStore) : GestureStore :=
  mkStore (gestures r) (connected r) (hasBeenModified r) v
    (latestTimestamp r) (matches r) (models r) (idToType r) (extId r)
    (curGestureIndex r) (timeout r) (filterX r) (filterY r) (filterZ r).
Definition set_latestTimestamp (v : Z) (r : GestureStore) : GestureStore :=
  mkStore (gestures r) (connected r) (hasBeenModified r) (readings r) v
    (matches r) (models r) (idToType r) (extId r) (curGestureIndex r)
    (timeout r) (filterX r) (filterY r) (filterZ r).
Definition set_matches (v : list Match) (r : GestureStore) : GestureStore :=
  mkStore (gestures r) (connected r) (hasBeenModified r) (readings r)
    (latestTimestamp r) v (models r) (idToType r) (extId r)
    (curGestureIndex r) (timeout r) (filterX r) (filterY r) (filterZ r).
Definition set_models (v : list Core) (r : GestureStore) : GestureStore :=
  mkStore (gestures r) (connected r) (hasBeenModified r) (readings r)
    (latestTimestamp r) (matches r) v (idToType r) (extId r)
    (curGestureIndex r) (timeout r) (filterX r) (filterY r) (filterZ r).
Definition set_idToType (v : gmap string string) (r : GestureStore) : GestureStore :=
  mkStore (gestures r) (connected r) (hasBeenModified r) (readings r)
    (latestTimestamp r) (matches r) (models r) v (extId r)
    (curGestureIndex r) (timeout r) (filterX r) (filterY r) (filterZ r).
Definition set_extId (v : string) (r : GestureStore) : GestureStore :=
  mkStore (gestures r) (connected r) (hasBeenModified r) (readings r)
    (latestTimestamp r) (matches r) (models r) (idToType r) v
    (curGestureIndex r) (timeout r) (filterX r) (filterY r) (filterZ r).
Definition set_curGestureIndex (v : Z) (r : GestureStore) : GestureStore :=
  mkStore (gestures r) (connected r) (hasBeenModified r) (readings r)
    (latestTimestamp r) (matches r) (models r) (idToType r) (extId r) v
    (timeout r) (filterX r) (filterY r) (filterZ r).
Definition set_timeout (v : option nat) (r : GestureStore) : GestureStore :=
  mkStore (gestures r) (connected r) (hasBeenModified r) (readings r)
    (latestTimestamp r) (matches r) (models r) (idToType r) (extId r)
    (curGestureIndex r) v (filterX r) (filterY r) (filterZ r).
Definition set_filterX (v : float) (r : GestureStore) : GestureStore :=
  mkStore (gestures r) (connected r) (hasBeenModified r) (readings r)
    (latestTimestamp r) (matches r) (models r) (idToType r) (extId r)
    (curGestureIndex r) (timeout r) v (filterY r) (filterZ r).
Definition set_filterY (v : float) (r : GestureStore) : GestureStore :=
  mkStore (gestures r) (connected r) (hasBeenModified r) (readings r)
    (latestTimestamp r) (matches r) (models r) (idToType r) (extId r)
    (curGestureIndex r) (timeout r) (filterX r) v (filterZ r).
Definition set_filterZ (v : float) (r : GestureStore) : GestureStore :=
  mkStore (gestures r) (connected r) (hasBeenModified r) (readings r)
    (latestTimestamp r) (matches r) (models r) (idToType r) (extId r)
    (curGestureIndex r) (timeout r) (filterX r) (filterY r) v.

Definition set_arrays (v : list (list loc)) (r : Host) : Host :=
  mkHost v (objects r) (gestureStatic r) (clock r) (timers r) (timerCount r)
    (posted r) (inFrame r) (randomCount r).
Definition set_objects (v : list (Gesture Example)) (r : Host) : Host :=
  mkHost (arrays r) v (gestureStatic r) (clock r) (timers r) (timerCount r)
    (posted r) (inFrame r) (randomCount r).
Definition set_gestureStatic (v : Static) (r : Host) : Host :=
  mkHost (arrays r) (objects r) v (clock r) (timers r) (timerCount r)
    (posted r) (inFrame r) (randomCount r).
Definition set_clock (v : Z) (r : Host) : Host :=
  mkHost (arrays r) (objects r) (gestureStatic r) v (timers r) (timerCount r)
    (posted r) (inFrame r) (randomCount r).
Definition set_timers (v : list (nat * Z)) (r : Host) : Host :=
  mkHost (arrays r) (objects r) (gestureStatic r) (clock r) v (timerCount r)
    (posted r) (inFrame r) (randomCount r).
Definition set_timerCount (v : nat) (r : Host) : Host :=
  mkHost (arrays r) (objects r) (gestureStatic r) (clock r) (timers r) v
    (posted r) (inFrame r) (randomCount r).
Definition set_posted (v : list Envelope) (r : Host) : Host :=
  mkHost (arrays r) (objects r) (gestureStatic r) (clock r) (timers r)
    (timerCount r) v (inFrame r) (randomCount r).
Definition set_inFrame (v : bool) (r : Host) : Host :=
  mkHost (arrays r) (objects r) (gestureStatic r) (clock r) (timers r)
    (timerCount r) (posted r) v (randomCount r).
Definition set_randomCount (v : nat) (r : Host) : Host :=
  mkHost (arrays r) (objects r) (gestureStatic r) (clock r) (timers r)
    (timerCount r) (posted r) (inFrame r) v.

Definition modThis (f : GestureStore → GestureStore) : Eff World unit :=
  modify (λ w, mkWorld (f (this w)) (host w)).
Definition modHost (f : Host → Host) : Eff World unit :=
  modify (λ w, mkWorld (this w) (f (host w))).

(** *** The heap *)

Definition readArray (r : loc) : Eff World (list loc) :=
  h ← gets host; deref (arrays h !! r).
Definition writeArray (r : loc) (arr : list loc) : Eff World unit :=
  modHost (λ h, set_arrays (<[r := arr]> (arrays h)) h).
Definition newArray (arr : list loc) : Eff World loc :=
  h ← gets host;
  modHost (set_arrays (arrays h ++ [arr]));;
  mret (length (arrays h)).

Definition readObject (r : loc) : Eff World (Gesture Example) :=
  h ← gets host; deref (objects h !! r).
Definition writeObject (r : loc) (g : Gesture Example) : Eff World unit :=
  modHost (λ h, set_objects (<[r := g]> (objects h)) h).
Definition newObject (g : Gesture Example) : Eff World loc :=
  h ← gets host;
  modHost (set_objects (objects h ++ [g]));;
  mret (length (objects h)).

(** [arr.slice()]: a new array with the same elements. *)
Definition slice (r : loc) : Eff World loc :=
  arr ← readArray r; newArray arr.

(** [new Gesture()] *)
Definition construct_Gesture : Eff World loc :=
  h ← gets host;
  let '(g, st) := newGesture (gestureStatic h) in
  modHost (set_gestureStatic st);;
  newObject g.

(** *** Host requests *)

(** [sendRequest(action, body)] *)
Definition sendRequest (action : string) (body : option WriteBody) : Eff World unit :=
  n ← gets (λ w, randomCount (host w));
  modHost (set_randomCount (S n));;
  let id := Math_random n in
  modThis (λ s, set_idToType (<[id := action]> (idToType s)) s);;
  s ← gets this;
  let msg := mkEnvelope "pxtpkgext" action (extId s) true id body in
  h ← gets host;
  if inFrame h then modHost (λ h, set_posted (push msg (posted h)) h) else mret tt.

(** *** Timers and the debounced save *)

(** [setTimeout(later, wait)]: identifiers are positive. *)
Definition setTimeout (wait : Z) : Eff World nat :=
  h ← gets host;
  let id := S (timerCount h) in
  modHost (λ h, set_timerCount id (set_timers (push (id, clock h + wait) (timers h)) h));;
  mret id.

(** [clearTimeout(t)]: nothing to do for [undefined], [null] or a timer
    that is no longer pending. *)
Definition clearTimeout (t : option nat) : Eff World unit :=
  match t with
  | Some id => modHost (λ h, set_timers (filter (λ tm, tm.1 ≠ id) (timers h)) h)
  | None => mret tt
  end.

(** [later] inside [debounce(func, wait, immediate)] *)
Definition debounce_later (func : Eff World unit) (immediate : bool) : Eff World unit :=
  modThis (set_timeout None);;
  if negb immediate then func else mret tt.

(** The function that [debounce(func, wait, immediate)] returns. *)
Definition debounce (func : Eff World unit) (wait : Z) (immediate : bool) : Eff World unit :=
  s ← gets this;
  let callNow := immediate && negb (bool_decide (is_Some (timeout s))) in
  clearTimeout (timeout s);;
  id ← setTimeout wait;
  modThis (set_timeout (Some id));;
  if callNow then func else mret tt.

(** [saveBlocksNow()] *)
Definition saveBlocksNow : Eff World unit :=
  s ← gets this;
  if negb (hasBeenModified s) then mret tt else
  cloneData ← slice (gestures s);
  let codeBlocks := generateBlock <$> filter (λ m, isRunning m) (models s) in
  let code := generateNamespace codeBlocks in
  arr ← readArray (gestures s);
  gs ← mapM readObject arr;
  let json := JSON_stringify gs in
  sendRequest "extwritecode" (Some (mkWriteBody code json));;
  modThis (set_hasBeenModified false);;
  modThis (set_gestures cloneData).

(** [saveBlocks = debounce(() => this.saveBlocksNow(), 2000)]: [immediate]
    is [undefined]. *)
Definition saveBlocks : Eff World unit := debounce saveBlocksNow 2000 false.

(** The callback of the timers that [saveBlocks] sets. *)
Definition later : Eff World unit := debounce_later saveBlocksNow false.

(** [markDirty()] *)
Definition markDirty : Eff World unit :=
  s ← gets this;
  if negb (hasBeenModified s) then
    modThis (set_hasBeenModified true);;
    saveBlocks
  else mret tt.

(** The window runs a pending timer: it leaves the list of timers, the
    clock is at its deadline at least, and its callback runs; an exception
    escaping the callback ends the callback only. *)
Definition fireTimer (tm : nat * Z) (w : World) : World :=
  if bool_decide (tm ∈ timers (host w)) then
    exec (modHost (λ h, set_clock (Z.max (clock h) tm.2)
                          (set_timers (filter (λ x, x ≠ tm) (timers h)) h));;
          later) w
  else w.

(** [dt] milliseconds pass with no other event: the timers due by then
    run, oldest first (all timers are set with the same delay, so this is
    the order of their deadlines). *)
Definition advance (dt : nat) (w : World) : World :=
  let t := clock (host w) + Z.of_nat dt in
  let w' := foldl (λ w tm, fireTimer tm w) w
              (filter (λ tm, tm.2 ≤ t) (timers (host w))) in
  mkWorld (this w') (set_clock t (host w')).

(** *** The catalog *)

(** [this.models[this.curGestureIndex]], [this.gestures[this.curGestureIndex]] *)
Definition currentModel (s : GestureStore) : option Core :=
  js_get (models s) (curGestureIndex s).

(** [model.update(data, tick)] on the matcher at index [i] of [this.models];
    a [TypeError] when there is none. *)
Definition updateModel (i : Z) (data : Cropped) : Eff World Core :=
  s ← gets this;
  model ← deref (js_get (models s) i);
  let model := update model data (latestTimestamp s) in
  modThis (set_models (<[Z.to_nat i := model]> (models s)));;
  mret model.

(** [addGesture()] *)
Definition addGesture : Eff World unit :=
  g ← construct_Gesture;
  s ← gets this;
  arr ← readArray (gestures s);
  writeArray (gestures s) (push g arr);;
  arr ← readArray (gestures s);
  modThis (set_curGestureIndex (Z.of_nat (length arr) - 1));;
  s ← gets this;
  cur ← deref (js_get arr (curGestureIndex s));
  gesture ← readObject cur;
  let model := newCore (gestureID gesture + 1) (name gesture) in
  modThis (λ s, set_models (push model (models s)) s).

(** [setCurrentGesture(gestureId)] *)
Definition setCurrentGesture (gestureId : Z) : Eff World unit :=
  s ← gets this;
  arr ← readArray (gestures s);
  gs ← mapM readObject arr;
  modThis (set_curGestureIndex (findIndex (λ g, gestureID g =? gestureId) gs));;
  s ← gets this;
  _ ← deref (currentModel s);
  cur ← deref (js_get arr (curGestureIndex s));
  gesture ← readObject cur;
  _ ← updateModel (curGestureIndex s) (getCroppedData gesture);
  mret tt.

(** [deleteSample(gesture, sample)] *)
Definition deleteSample (gesture : loc) (sample : Example) : Eff World unit :=
  s ← gets this;
  cloneData ← slice (gestures s);
  arr ← readArray (gestures s);
  let gi := indexOf gesture arr in
  g ← deref (js_get arr gi);
  o ← readObject g;
  let si := indexOf sample (samples o) in
  clone ← readArray cloneData;
  g ← deref (js_get clone gi);
  o ← readObject g;
  writeObject g (mkGesture (gestureID o) (name o) (splice1 si (samples o)) (displayGesture o));;
  o ← readObject g;
  model ← updateModel gi (getCroppedData o);
  writeObject g (mkGesture (gestureID o) (name o) (samples o) (prototype model));;
  modThis (set_gestures cloneData);;
  markDirty.

(** [addSample(gesture, newSample)] *)
Definition addSample (gesture : loc) (newSample : Example) : Eff World unit :=
  s ← gets this;
  cloneData ← slice (gestures s);
  arr ← readArray (gestures s);
  let gestureIndex := indexOf gesture arr in
  clone ← readArray cloneData;
  g ← deref (js_get clone gestureIndex);
  o ← readObject g;
  writeObject g (mkGesture (gestureID o) (name o) (unshift newSample (samples o)) (displayGesture o));;
  o ← readObject g;
  model ← updateModel (curGestureIndex s) (getCroppedData o);
  writeObject g (mkGesture (gestureID o) (name o) (samples o) (prototype model));;
  modThis (set_gestures cloneData);;
  markDirty.

(** [Gesture.parseGesture(importedGesture)] *)
Definition parse_Gesture (importedGesture : JsValue) : Eff World loc :=
  h ← gets host;
  let '(r, st) := parseGesture importedGesture (gestureStatic h) in
  modHost (set_gestureStatic st);;
  g ← deref r;
  newObject g.

(** [loadBlocks(code, json)]; [json] may be [undefined].  Calling [map] on
    a parsed value that is truthy but not an array is a [TypeError]. *)
Definition loadBlocks (code : string) (json : option string) : Eff World unit :=
  match json with
  | None => mret tt
  | Some text =>
      if String.eqb text EmptyString then mret tt else
      match JSON_parse text with
      | None => throw SyntaxError
      | Some jsonGestures =>
          if negb (truthy jsonGestures) then mret tt else
          match jsonGestures with
          | JArr items =>
              parsed ← mapM parse_Gesture items;
              published ← newArray parsed;
              modThis (set_gestures published);;
              s ← gets this;
              arr ← readArray (gestures s);
              ms ← mapM (λ g,
                      gesture ← readObject g;
                      let model := newCore (gestureID gesture + 1) (name gesture) in
                      mret (update model (getCroppedData gesture) (latestTimestamp s)))
                    arr;
              modThis (set_models ms)
          | _ => throw TypeError
          end
      end
  end.

(** [deleteIfGestureEmpty()] *)
Definition deleteIfGestureEmpty : Eff World unit :=
  s ← gets this;
  arr ← readArray (gestures s);
  if 0 <? Z.of_nat (length arr) then
    g ← deref (js_get arr (curGestureIndex s));
    o ← readObject g;
    if Z.of_nat (length (samples o)) =? 0 then
      cloneData ← slice (gestures s);
      clone ← readArray cloneData;
      writeArray cloneData (splice1 (curGestureIndex s) clone);;
      modThis (set_models (splice1 (curGestureIndex s) (models s)));;
      modThis (set_gestures cloneData)
    else mret tt
  else mret tt.

(** [deleteGesture(gesture)] *)
Definition deleteGesture (gesture : loc) : Eff World unit :=
  s ← gets this;
  arr ← readArray (gestures s);
  let index := indexOf gesture arr in
  if 0 <=? index then
    writeArray (gestures s) (splice1 index arr);;
    modThis (set_models (splice1 index (models s)));;
    markDirty
  else mret tt.

(** *** The sensor stream *)

(** The [for] loop of [parseString], from index [i]; it ends within
    [fuel] iterations when [fuel] is the number of tokens. *)
Fixpoint parseLoop (fuel : nat) (strBufArray : list string) (i : nat)
    (result : SensorData) : SensorData :=
  match fuel with
  | O => result
  | S fuel =>
      match strBufArray !! i with
      | None => result
      | Some tok =>
          if String.eqb tok "A" then
            parseLoop fuel strBufArray (i + 3 + 1)%nat
              (mkSensorData true
                 (mkReading (parseInt (strBufArray !! (i + 1)%nat))
                            (parseInt (strBufArray !! (i + 2)%nat))
                            (parseInt (strBufArray !! (i + 3)%nat))))
          else parseLoop fuel strBufArray (i + 1)%nat result
      end
  end.

(** [parseString(strBuf)] *)
Definition parseString (strBuf : string) : SensorData :=
  let strBufArray := split Ascii.Space strBuf in
  parseLoop (length strBufArray) strBufArray 0%nat
    (mkSensorData false (mkReading 0 0 0)).

(** The callback that the constructor registers with [serialData]: one
    call per sensor frame. *)
Definition serialHandler (data : SensorData) : Eff World unit :=
  s ← gets this;
  let accelX := lowPass (accelX (accVec data)) (filterX s) in
  let accelY := lowPass (accelY (accVec data)) (filterY s) in
  let accelZ := lowPass (accelZ (accVec data)) (filterZ s) in
  modThis (λ s, set_filterX accelX (set_filterY accelY (set_filterZ accelZ s)));;
  modThis (λ s, set_readings (push (mkReading accelX accelY accelZ) (readings s)) s);;
  modThis (λ s, set_latestTimestamp (latestTimestamp s + 1) s);;
  s ← gets this;
  (if READING_HISTORY_LIMIT <? Z.of_nat (length (readings s))
   then modThis (set_readings (shift (readings s)))
   else mret tt);;
  s ← gets this;
  match currentModel s with
  | Some model =>
      if isRunning model then
        let '(model, found) := feed model (accVec data) in
        modThis (set_models (<[Z.to_nat (curGestureIndex s) := model]> (models s)));;
        match found with
        | Some m => modThis (λ s, set_matches (push m (matches s)) s)
        | None => mret tt
        end
      else mret tt
  | None => mret tt
  end.

(** [onSerialData(strBuf)]; [serialData.notify] calls the registered
    callback. *)
Definition onSerialData (strBuf : string) : Eff World unit :=
  let newData := parseString strBuf in
  (if acc newData then serialHandler newData else mret tt);;
  modThis (set_connected (Some true)).

(** [isMatch(readingIndex)] *)
Definition isMatch (s : GestureStore) (readingIndex : Z) : bool :=
  let time := latestTimestamp s - (Z.of_nat (length (readings s)) - 1 - readingIndex) in
  0 <=? findIndex (λ m, (startTime m <=? time) && (time <=? endTime m)) (matches s).

(** [readingLimit], [currentOrientation] *)
Definition readingLimit : Z := READING_HISTORY_LIMIT.
Definition currentOrientation (s : GestureStore) : option MotionReading :=
  if 0 <? Z.of_nat (length (readings s))
  then js_get (readings s) (Z.of_nat (length (readings s)) - 1)
  else None.

(** *** Host messages *)

(** [receiveMessage(data)].  A key that was never set reads as
    [undefined] or as a member inherited from [Object.prototype]; neither
    is one of the two actions of the [switch]. *)
Definition receiveMessage (data : ExtensionMessage) : Eff World unit :=
  if nonempty (msg_event data) then
    let event := default EmptyString (msg_event data) in
    if String.eqb event "extconsole" then
      '(sim, strBuf) ← deref (msg_cons_body data);
      if sim : bool then mret tt else onSerialData strBuf
    else if String.eqb event "extshown" then
      modThis (set_connected (Some true));;
      sendRequest "extdatastream" None;;
      sendRequest "extreadcode" None
    else if String.eqb event "exthidden" then
      modThis (set_connected (Some false))
    else mret tt
  else
    s ← gets this;
    let action := idToType s !! msg_id data in
    modThis (λ s, set_idToType (delete (msg_id data) (idToType s)) s);;
    if bool_decide (action = Some "extinit") then
      sendRequest "extdatastream" None;;
      sendRequest "extreadcode" None
    else if bool_decide (action = Some "extreadcode") then
      '(code, json) ← deref (msg_resp data);
      loadBlocks code json
    else mret tt.

(** The listener for window messages that the constructor installs. *)
Definition onWindowMessage (data : ExtensionMessage) : Eff World unit :=
  if String.eqb (msg_type data) "pxtpkgext" then receiveMessage data else mret tt.

(** A new store: the field initialisers, then the constructor
    ([hash] is [window.location.hash]), in a window whose class [Gesture]
    has static state [st] and that has a parent window or not. *)
Definition newStore (hash : string) (st : Static) (framed : bool) : World :=
  let fields :=
    mkStore 0%nat None false [] 0 [] [] ∅ EmptyString 0 None 0%float 0%float 0%float in
  let window := mkHost [[]] [] st 0 [] 0%nat [] framed 0%nat in
  exec (modThis (set_extId (String.substring 1 (String.length hash - 1) hash));;
        sendRequest "extinit" None)
       (mkWorld fields window).

(** *** Runs *)

(** The sensor delivers the frames of a list, one call of the registered
    callback each. *)
Definition feedAll (frames : list SensorData) (w : World) : World :=
  foldl (λ w data, exec (serialHandler data) w) w frames.

(** The conditioned readings of a list of frames, from the values that
    the three filters remember. *)
Fixpoint smoothed (fx fy fz : float) (frames : list SensorData) : list MotionReading :=
  match frames with
  | [] => []
  | data :: rest =>
      let x := lowPass (accelX (accVec data)) fx in
      let y := lowPass (accelY (accVec data)) fy in
      let z := lowPass (accelZ (accVec data)) fz in
      mkReading x y z :: smoothed x y z rest
  end.

(** What [loadBlocks] makes of the items of a parsed array: the gestures
    that [Gesture.parseGesture] returns, or [None] when it throws on one of
    them, and the static state of class [Gesture] afterwards. *)
Fixpoint parseAll (items : list JsValue) (st : Static)
    : option (list (Gesture Example)) * Static :=
  match items with
  | [] => (Some [], st)
  | importedGesture :: rest =>
      let '(r, st1) := parseGesture importedGesture st in
      match r with
      | Some g => let '(rs, st2) := parseAll rest st1 in (cons g <$> rs, st2)
      | None => (None, st1)
      end
  end.

(** The matcher that [loadBlocks] builds for a gesture at tick [tick]. *)
Definition primed (tick : Z) (gesture : Gesture Example) : Core :=
  update (newCore (gestureID gesture + 1) (name gesture)) (getCroppedData gesture) tick.

(** The state in which [markDirty] leaves a store that was not dirty: the
    flag is set and [saveBlocks] has replaced the timer it remembers, if
    that was pending, by a new one. *)
Definition armed (w : World) : World :=
  let id := S (timerCount (host w)) in
  let pending :=
    match timeout (this w) with
    | Some old => filter (λ tm, tm.1 ≠ old) (timers (host w))
    | None => timers (host w)
    end in
  mkWorld (set_timeout (Some id) (set_hasBeenModified true (this w)))
    (set_timerCount id
       (set_timers (push (id, clock (host w) + 2000) pending) (host w))).

(** The operations on the catalog. *)
Inductive CatalogOp :=
  | OpAddGesture
  | OpDeleteGesture (gesture : loc)
  | OpDeleteIfGestureEmpty
  | OpLoadBlocks (code : string) (json : option string)
  | OpAddSample (gesture : loc) (newSample : Example)
  | OpDeleteSample (gesture : loc) (sample : Example)
  | OpSetCurrentGesture (gestureId : Z).

Definition perform (op : CatalogOp) : Eff World unit :=
  match op with
  | OpAddGesture => addGesture
  | OpDeleteGesture gesture => deleteGesture gesture
  | OpDeleteIfGestureEmpty => deleteIfGestureEmpty
  | OpLoadBlocks code json => loadBlocks code json
  | OpAddSample gesture newSample => addSample gesture newSample
  | OpDeleteSample gesture sample => deleteSample gesture sample
  | OpSetCurrentGesture gestureId => setCurrentGesture gestureId
  end.

(** One operation after the other; an operation that throws leaves the
    state it had reached. *)
Definition performAll (ops : list CatalogOp) (w : World) : World :=
  foldl (λ w op, exec (perform op) w) w ops.

(** The array that [this.gestures] references. *)
Definition catalog (w : World) : option (list loc) :=
  arrays (host w) !! gestures (this w).

(** The matchers are as many as the gestures. *)
Definition aligned (w : World) : Prop :=
  ∃ arr, catalog w = Some arr ∧ length (models (this w)) = length arr.

(** The host delivers the messages of a list, one call of
    [receiveMessage] each. *)
Definition receiveAll (msgs : list ExtensionMessage) (w : World) : World :=
  foldl (λ w data, exec (receiveMessage data) w) w msgs.

(** The store once the entry of [id] has left [idToType]. *)
Definition consumed (id : string) (w : World) : World :=
  mkWorld (set_idToType (delete id (idToType (this w))) (this w)) (host w).

(** A run of the scheduler: calls of [markDirty] and waits with no other
    event. *)
Inductive Step :=
  | Call
  | Wait (dt : nat).

Definition play (script : list Step) (w : World) : World :=
  foldl (λ w step, match step with
                   | Call => exec markDirty w
                   | Wait dt => advance dt w
                   end) w script.

(** The time that a script waits, in milliseconds. *)
Fixpoint waited (script : list Step) : Z :=
  match script with
  | [] => 0
  | Call :: rest => waited rest
  | Wait dt :: rest => Z.of_nat dt + waited rest
  end.

(** The flushes so far: the write requests posted to the host. *)
Definition flushes (w : World) : nat :=
  length (filter (λ msg, env_action msg = "extwritecode") (posted (host w))).

(** Nothing to save and no timer pending: a new store, or a store after
    a flush. *)
Definition idle (w : World) : Prop :=
  hasBeenModified (this w) = false ∧ timers (host w) = [].

(** The published array exists and so do the gestures it references. *)
Definition grounded (w : World) : Prop :=
  ∃ arr, catalog w = Some arr ∧ ∀ g, g ∈ arr → is_Some (objects (host w) !! g).

(** A call of [markDirty] that restarts the delay: after it the one
    pending timer is due 2000 ms after the call. *)
Definition restarts_delay (w : World) : Prop :=
  ∃ id, timers (host (exec markDirty w)) = [(id, clock (host w) + 2000)].

(** The array that [this.gestures] referenced before a statement has,
    after it, the elements it had before. *)
Definition keeps_published (op : Eff World unit) (w : World) : Prop :=
  arrays (host (exec op w)) !! gestures (this w) = catalog w.

(** The timers are none, or the one that [saveBlocks] remembers. *)
Definition single_timer (w : World) : Prop :=
  timers (host w) = [] ∨
  ∃ id due, timers (host w) = [(id, due)] ∧ timeout (this w) = Some id.

(** What the sensor stream leaves alone: the fields of the store that
    are not the readings, the tick, the matches, the filters and the
    matchers, and the whole window. *)
Definition outside_stream (w : World) :=
  (gestures (this w), connected (this w), hasBeenModified (this w), idToType (this w),
   extId (this w), curGestureIndex (this w), timeout (this w), host w).

(** What the catalog operations leave alone: the sensor stream and the
    host protocol. *)
Definition outside_catalog (w : World) :=
  (readings (this w), latestTimestamp (this w), matches (this w),
   (filterX (this w), filterY (this w), filterZ (this w)),
   idToType (this w), connected (this w), extId (this w),
   posted (host w), randomCount (host w)).

(** The published array exists, references no gesture twice and
    references allocated gestures only. *)
Definition well_formed (w : World) : Prop :=
  ∃ arr, catalog w = Some arr ∧ NoDup arr ∧
         ∀ g, g ∈ arr → (g < length (objects (host w)))%nat.

(** Modelled from the spec: "id (unique, immutable, monotonically assigned,
    never reused)".  The class [Gesture] numbers the gestures that its
    constructor builds from a counter of its static state; [nextId] reads
    the counter. *)
Definition numbered (nextId : Static → Z) : Prop :=
  ∀ st, gestureID (newGesture st).1 = nextId st ∧
        nextId (newGesture st).2 = nextId st + 1.

(** Every gesture object of the heap, in the catalog or retired, has an
    id below the counter. *)
Definition ids_below (nextId : Static → Z) (w : World) : Prop :=
  ∀ o, o ∈ objects (host w) → gestureID o < nextId (gestureStatic (host w)).

(** The operations that build gestures with the constructor only. *)
Definition constructs (op : CatalogOp) : bool :=
  match op with OpLoadBlocks _ _ => false | _ => true end.


End Store.

(** * A window for the scenarios

    Implementations of the three interfaces, on which the store runs from
    end to end. *)

Module Scenario.

(** Modelled from the spec: class [SingleDTWCore] of [model.ts], of which
    the source only shows the calls ("stateful recognizer exposing
    update(trainingData, tick), feed(sample) → optional Match, isRunning(),
    generateCodeBlock(), prototype accessor").  This matcher keeps the
    arguments it was built with and every training set it was given; it
    runs once it is trained and reports no match. *)
Record Recorder := mkRecorder {
  classNumber : Z;
  className : string;
  trained : list (list nat * Z);
  fed : list MotionReading }.

#[export] Instance recorder : DTWCore nat (list nat) Recorder := {|
  newCore n nm := mkRecorder n nm [] [];
  update m data tick :=
    mkRecorder (classNumber m) (className m) ((data, tick) :: trained m) (fed m);
  prototype m := match trained m with (x :: _, _) :: _ => x | _ => 0%nat end;
  isRunning m := match trained m with [] => false | _ => true end;
  feed m r :=
    (mkRecorder (classNumber m) (className m) (trained m) (r :: fed m), None);
  generateBlock m := className m;
  generateNamespace blocks := String.concat " " blocks |}.

(** The integer that a float holds (0 for a float that holds none). *)
Definition float_to_Z (f : float) : Z :=
  match Prim2SF f with
  | S754_finite sign m e =>
      let z := if 0 <=? e then Z.shiftl (Z.pos m) e else Z.shiftr (Z.pos m) (- e) in
      if sign then - z else z
  | _ => 0
  end.

Definition field (key : string) (fields : list (string * JsValue)) : option JsValue :=
  snd <$> List.find (λ kv, String.eqb kv.1 key) fields.

(** Modelled from the spec: the constructor and the parser of class
    [Gesture] of [motion.ts].  "id (unique, immutable, monotonically
    assigned, never reused)": the class counts the gestures it has built and
    numbers them; a persisted record is "{id, name, samples: [...]}", and a
    value that is no record makes the parser throw.  Examples are numbered;
    the cropped data of a gesture are its examples. *)
#[export] Instance counted : GestureClass nat (list nat) Z := {|
  newGesture next := (mkGesture next "gesture" [] 0%nat, next + 1);
  parseGesture v next :=
    match v with
    | JObj fields =>
        let id := match field "id" fields with Some (JNum n) => float_to_Z n | _ => 0 end in
        let nm := match field "name" fields with Some (JStr s) => s | _ => EmptyString end in
        let ex := match field "samples" fields with
                  | Some (JArr items) => seq 0 (length items)
                  | _ => []
                  end in
        (Some (mkGesture id nm ex 0%nat), next)
    | _ => (None, next)
    end;
  getCroppedData g := samples g |}.

(** The leading decimal digits of a string, as a number. *)
Fixpoint digits (s : string) (seen : option Z) : option Z :=
  match s with
  | String c rest =>
      let d := Z.of_nat (Ascii.nat_of_ascii c) - 48 in
      if (0 <=? d) && (d <=? 9) then digits rest (Some (10 * default 0 seen + d))
      else seen
  | EmptyString => seen
  end.

Definition float_of_Z (z : Z) : float :=
  if z <? 0 then (- PrimFloat.of_uint63 (Uint63.of_Z (- z)))%float
  else PrimFloat.of_uint63 (Uint63.of_Z z).

(** The built-ins, as far as the scenarios use them: [JSON_parse] knows a
    few texts and rejects the others, a gesture is
    serialised to its name, the [n]-th random number prints as [0.n], and
    [parseInt] reads small decimal integers. *)
#[export] Instance builtins : Platform nat := {|
  JSON_parse text :=
    if String.eqb text "null" then Some JNull
    else if String.eqb text "0" then Some (JNum 0)
    else if String.eqb text "7" then Some (JNum 7)
    else if String.eqb text "[]" then Some (JArr [])
    else if String.eqb text "{}" then Some (JObj [])
    else if String.eqb text "[{}]" then Some (JArr [JObj []])
    else if String.eqb text "[{},{}]" then Some (JArr [JObj []; JObj []])
    else None;
  JSON_stringify gs := String.concat "," (name <$> gs);
  Math_random n := String.append "0." (pretty n);
  parseInt tok :=
    match tok with
    | Some (String c rest as s) =>
        if Ascii.eqb c (Ascii.ascii_of_nat 45)
        then from_option (λ z, float_of_Z (- z)) nan (digits rest None)
        else from_option float_of_Z nan (digits s None)
    | _ => nan
    end |}.

(** A new store in a frame of the editor; the first gesture gets number 1. *)
Definition fresh : @World nat Recorder Z := newStore "#gestures" 1 true.

(** The store after one call of [addGesture], and after two. *)
Definition one : @World nat Recorder Z := exec addGesture fresh.
Definition two : @World nat Recorder Z := exec addGesture one.

(** Frame [i] of a stream of frames: the sensor reads [(i, 2i, -i)]. *)
Definition frame (i : nat) : SensorData :=
  let v := float_of_Z (Z.of_nat i) in
  mkSensorData true (mkReading v (2 * v) (- v)).

End Scenario.

(** * Properties *)

Section Properties.
Context {Example Cropped Core Static : Type}.
Context `{EqDecision Example}.
Context `{!DTWCore Example Cropped Core}.
Context `{!GestureClass Example Cropped Static}.
Context `{!Platform Example}.

Abbreviation World := (@World Example Core Static).
Abbreviation GestureStore := (@GestureStore Core).

(** ** Arrays *)

Lemma findIndex_range {A} (p : A → bool) (l : list A) :
  -1 ≤ findIndex p l < Z.of_nat (length l).
Proof.
  induction l as [|x l IH]; simpl; [lia|].
  destruct (p x); [lia|].
  destruct (Z.ltb_spec (findIndex p l) 0); lia.
Qed.

Lemma findIndex_found {A} (p : A → bool) (l : list A) :
  0 ≤ findIndex p l ↔ ∃ x, x ∈ l ∧ p x = true.
Proof.
  induction l as [|x l IH]; simpl.
  - split; [lia|]. intros (x & Hx & _). by apply elem_of_nil in Hx.
  - destruct (p x) eqn:Hp.
    + split; [|lia]. intros _. exists x. split; [left|done].
    + destruct (Z.ltb_spec (findIndex p l) 0) as [Hlt|Hge].
      * split; [lia|]. intros (y & Hy & Hpy).
        apply elem_of_cons in Hy as [->|Hy]; [congruence|].
        assert (0 ≤ findIndex p l) by (apply IH; eauto). lia.
      * split; [|lia]. intros _. destruct (proj1 IH Hge) as (y & Hy & Hpy).
        exists y. split; [by right|done].
Qed.

(** Running a statement: unfold the monad and compute. *)
Ltac eff_unfold :=
  unfold mbind, Eff_bind, mret, Eff_ret, bind, ret, gets, modify, modThis,
    modHost, throw, deref, exec.
Ltac run := repeat (progress (eff_unfold; cbn)).
(** The same, leaving the operations of maps alone. *)
Ltac run_sync := repeat (progress (eff_unfold; cbn -[insert delete lookup])).

Lemma indexOf_absent {A} `{EqDecision A} (x : A) (l : list A) :
  x ∉ l ↔ indexOf x l = -1.
Proof.
  unfold indexOf. pose proof (findIndex_range (λ y, bool_decide (y = x)) l) as Hr.
  pose proof (findIndex_found (λ y, bool_decide (y = x)) l) as Hf.
  split.
  - intros Hx. destruct (Z.eq_dec (findIndex (λ y, bool_decide (y = x)) l) (-1)); [done|].
    destruct Hf as [Hf _]. destruct Hf as (y & Hy & Heq); [lia|].
    apply bool_decide_eq_true in Heq. by subst.
  - intros Hi Hx. destruct Hf as [_ Hf]. rewrite Hi in Hf.
    assert (0 ≤ -1); [|lia]. apply Hf. exists x. split; [done|].
    by apply bool_decide_eq_true.
Qed.

Lemma indexOf_lookup {A} `{EqDecision A} (x : A) (l : list A) :
  x ∈ l → js_get l (indexOf x l) = Some x.
Proof.
  unfold indexOf, js_get. induction l as [|y l IH]; intros Hx.
  - by apply elem_of_nil in Hx.
  - cbn [findIndex]. destruct (bool_decide_reflect (y = x)) as [->|Hne]; [done|].
    apply elem_of_cons in Hx as [->|Hx]; [done|]. specialize (IH Hx).
    pose proof (findIndex_range (λ y, bool_decide (y = x)) l) as Hr.
    destruct (Z.ltb_spec (findIndex (λ y, bool_decide (y = x)) l) 0) as [Hlt|Hge];
      [done|].
    destruct (Z.ltb_spec (1 + findIndex (λ y, bool_decide (y = x)) l) 0); [lia|].
    replace (Z.to_nat (1 + findIndex (λ y, bool_decide (y = x)) l))
      with (S (Z.to_nat (findIndex (λ y, bool_decide (y = x)) l))) by lia.
    done.
Qed.

Lemma splice1_length {A} (i : Z) (l : list A) :
  0 ≤ i < Z.of_nat (length l) → S (length (splice1 i l)) = length l.
Proof.
  intros Hi. unfold splice1. destruct (Z.ltb_spec i 0); [lia|].
  rewrite Z.min_l by lia. rewrite length_delete.
  - lia.
  - apply lookup_lt_is_Some. lia.
Qed.

Lemma js_get_Some {A} (l : list A) (i : Z) (x : A) :
  js_get l i = Some x → 0 ≤ i < Z.of_nat (length l).
Proof.
  unfold js_get. destruct (Z.ltb_spec i 0); [done|]. intros Hx.
  apply lookup_lt_Some in Hx. lia.
Qed.

(** ** The debounced save *)

Lemma markDirty_eq (w : World) :
  markDirty w = (Normal tt, if hasBeenModified (this w) then w else armed w).
Proof.
  unfold markDirty, saveBlocks, debounce, clearTimeout, setTimeout, armed. run.
  destruct (hasBeenModified (this w)); run; [done|].
  destruct (timeout (this w)); run; done.
Qed.
Arguments markDirty : simpl never.

(** ** The catalog *)

Lemma deleteGesture_eq (gesture : loc) (w : World) (arr : list loc) :
  catalog w = Some arr →
  deleteGesture gesture w =
    let index := indexOf gesture arr in
    if 0 <=? index then
      markDirty
        (mkWorld (set_models (splice1 index (models (this w))) (this w))
           (set_arrays (<[gestures (this w) := splice1 index arr]> (arrays (host w)))
              (host w)))
    else (Normal tt, w).
Proof.
  unfold catalog. intros Harr. unfold deleteGesture, readArray, writeArray. run.
  rewrite Harr. run. destruct (0 <=? indexOf gesture arr); run; done.
Qed.

Lemma js_get_push_last {A} (l : list A) (x : A) :
  js_get (push x l) (Z.of_nat (length (push x l)) - 1) = Some x.
Proof.
  unfold js_get, push. rewrite length_app. cbn [length].
  destruct (Z.ltb_spec (Z.of_nat (length l + 1) - 1) 0); [lia|].
  replace (Z.to_nat (Z.of_nat (length l + 1) - 1)) with (length l) by lia.
  by rewrite list_lookup_middle.
Qed.

Lemma lookup_push_new {A} (l : list A) (x : A) : (l ++ [x]) !! length l = Some x.
Proof. by rewrite list_lookup_middle. Qed.

Lemma lookup_push_old {A} (l : list A) (x y : A) (i : nat) :
  l !! i = Some y → (l ++ [x]) !! i = Some y.
Proof. intros Hi. by rewrite lookup_app_l_Some with (x := y). Qed.

Lemma addGesture_eq (w : World) (arr : list loc) :
  catalog w = Some arr →
  addGesture w =
    let g := length (objects (host w)) in
    let gesture := (newGesture (gestureStatic (host w))).1 in
    let model := newCore (gestureID gesture + 1) (name gesture) in
    (Normal tt,
     mkWorld
       (set_models (push model (models (this w)))
          (set_curGestureIndex (Z.of_nat (length arr)) (this w)))
       (set_arrays (<[gestures (this w) := push g arr]> (arrays (host w)))
          (set_objects (push gesture (objects (host w)))
             (set_gestureStatic (newGesture (gestureStatic (host w))).2 (host w))))).
Proof.
  unfold catalog. intros Harr.
  unfold addGesture, construct_Gesture, newObject, readArray, writeArray, readObject.
  run. destruct (newGesture _) as [gesture st]. run. rewrite Harr. run.
  rewrite list_lookup_insert_eq by (by apply lookup_lt_Some in Harr). run.
  rewrite js_get_push_last. run. rewrite lookup_push_new. run.
  unfold push. rewrite length_app. cbn [length].
  replace (Z.of_nat (length arr + 1) - 1) with (Z.of_nat (length arr)) by lia.
  done.
Qed.

Lemma addSample_catalog (gesture : loc) (newSample : Example) (w : World) (arr : list loc) :
  catalog w = Some arr →
  let w' := exec (addSample gesture newSample) w in
  arrays (host w') !! gestures (this w) = Some arr ∧
  catalog w' = Some arr ∧
  length (models (this w')) = length (models (this w)) ∧
  ((addSample gesture newSample w).1 = Normal tt →
     gestures (this w') = length (arrays (host w))).
Proof.
  unfold catalog. intros Harr. cbn zeta.
  unfold addSample, slice, newArray, readArray, writeObject, readObject, updateModel.
  run. rewrite Harr. run.
  rewrite (lookup_push_old _ _ _ _ Harr). run.
  rewrite lookup_push_new. run.
  destruct (js_get arr _) as [g|]; run; [|by rewrite (lookup_push_old _ _ _ _ Harr)].
  destruct (objects (host w) !! g) as [o|] eqn:Ho; run;
    [|by rewrite (lookup_push_old _ _ _ _ Harr)].
  rewrite list_lookup_insert_eq by (by apply lookup_lt_Some in Ho). run.
  destruct (js_get (models (this w)) _) as [m|]; run;
    [|by rewrite (lookup_push_old _ _ _ _ Harr)].
  rewrite markDirty_eq. run.
  destruct (hasBeenModified (this w)); run;
    rewrite length_insert, lookup_push_new, (lookup_push_old _ _ _ _ Harr); done.
Qed.

Lemma deleteSample_catalog (gesture : loc) (sample : Example) (w : World) (arr : list loc) :
  catalog w = Some arr →
  let w' := exec (deleteSample gesture sample) w in
  arrays (host w') !! gestures (this w) = Some arr ∧
  catalog w' = Some arr ∧
  length (models (this w')) = length (models (this w)) ∧
  ((deleteSample gesture sample w).1 = Normal tt →
     gestures (this w') = length (arrays (host w))).
Proof.
  unfold catalog. intros Harr. cbn zeta.
  unfold deleteSample, slice, newArray, readArray, writeObject, readObject, updateModel.
  run. rewrite Harr. run.
  rewrite (lookup_push_old _ _ _ _ Harr). run.
  destruct (js_get arr _) as [g|] eqn:Hg; run;
    [|by rewrite (lookup_push_old _ _ _ _ Harr)].
  destruct (objects (host w) !! g) as [o|] eqn:Ho; run;
    [|by rewrite (lookup_push_old _ _ _ _ Harr)].
  rewrite lookup_push_new. run. rewrite Hg. run. rewrite Ho. run.
  rewrite list_lookup_insert_eq by (by apply lookup_lt_Some in Ho). run.
  destruct (js_get (models (this w)) _) as [m|]; run;
    [|by rewrite (lookup_push_old _ _ _ _ Harr)].
  rewrite markDirty_eq. run.
  destruct (hasBeenModified (this w)); run;
    rewrite length_insert, lookup_push_new, (lookup_push_old _ _ _ _ Harr); done.
Qed.

Lemma insert_push_new {A} (l : list A) (x y : A) : <[length l := y]> (l ++ [x]) = l ++ [y].
Proof.
  rewrite insert_app_r_alt by lia. by rewrite Nat.sub_diag.
Qed.

Lemma deleteIfGestureEmpty_catalog (w : World) (arr : list loc) :
  catalog w = Some arr →
  let w' := exec deleteIfGestureEmpty w in
  let cur := curGestureIndex (this w) in
  arrays (host w') !! gestures (this w) = Some arr ∧
  (w' = w ∨
   (0 ≤ cur < Z.of_nat (length arr) ∧
    gestures (this w') = length (arrays (host w)) ∧
    catalog w' = Some (splice1 cur arr) ∧
    models (this w') = splice1 cur (models (this w)))).
Proof.
  unfold catalog. intros Harr. cbn zeta.
  unfold deleteIfGestureEmpty, slice, newArray, readArray, writeArray, readObject.
  run. rewrite Harr. run.
  destruct (0 <? Z.of_nat (length arr)); run; [|by eauto].
  destruct (js_get arr _) as [g|] eqn:Hg; run; [|by eauto].
  destruct (objects (host w) !! g) as [o|] eqn:Ho; run; [|by eauto].
  destruct (Z.of_nat (length (samples o)) =? 0); run; [|by eauto].
  rewrite Harr. run. rewrite lookup_push_new. run.
  rewrite insert_push_new, lookup_push_new, (lookup_push_old _ _ _ _ Harr).
  split; [done|]. right. apply js_get_Some in Hg. done.
Qed.

Lemma mapM_state {A B} (f : A → Eff World B) (l : list A) (w : World) :
  (∀ x w, (f x w).2 = w) → (mapM f l w).2 = w.
Proof.
  intros Hf. revert w. induction l as [|x l IH]; intros w; cbn; [done|].
  unfold bind. specialize (Hf x w). destruct (f x w) as [[y|e] w1]; cbn in *; subst; [|done].
  specialize (IH w). destruct (mapM f l w) as [[ys|e] w2]; cbn in *; by subst.
Qed.

Lemma readObject_state (g : loc) (w : World) : (readObject g w).2 = w.
Proof. unfold readObject. run. by destruct (objects (host w) !! g). Qed.

Lemma setCurrentGesture_catalog (gestureId : Z) (w : World) :
  let w' := exec (setCurrentGesture gestureId) w in
  arrays (host w') = arrays (host w) ∧
  gestures (this w') = gestures (this w) ∧
  length (models (this w')) = length (models (this w)).
Proof.
  cbn zeta. unfold setCurrentGesture, readArray, updateModel, currentModel. run.
  destruct (arrays (host w) !! gestures (this w)) as [arr|]; run; [|done].
  pose proof (mapM_state readObject arr w readObject_state) as Hst.
  destruct (mapM readObject arr w) as [[gs|e] w1]; cbn in Hst; subst w1; run; [|done].
  destruct (js_get (models (this w)) _) as [m|] eqn:Hm; run; [|done].
  destruct (js_get arr _) as [g|]; run; [|done].
  unfold readObject. run.
  destruct (objects (host w) !! g) as [o|]; run; [|done].
  rewrite Hm. run. by rewrite length_insert.
Qed.

(** The parser allocates the gestures it returns, one after the other,
    and touches neither the store nor the arrays. *)
Lemma mapM_parse_Gesture (items : list JsValue) (w : World) :
  match parseAll items (gestureStatic (host w)) with
  | (Some gs, st) =>
      mapM parse_Gesture items w =
        (Normal (seq (length (objects (host w))) (length gs)),
         mkWorld (this w)
           (set_objects (objects (host w) ++ gs) (set_gestureStatic st (host w))))
  | (None, _) =>
      ∃ e objs st,
        mapM parse_Gesture items w =
          (Thrown e, mkWorld (this w) (set_objects objs (set_gestureStatic st (host w))))
  end.
Proof.
  revert w. induction items as [|v items IH]; intros w.
  - cbn. unfold ret. rewrite app_nil_r. by destruct w as [s []].
  - cbn [parseAll mapM].
    destruct (parseGesture v _) as [[g|] st1] eqn:Hv.
    + set (w1 := mkWorld (this w)
        (set_objects (objects (host w) ++ [g]) (set_gestureStatic st1 (host w)))).
      assert (Hg : parse_Gesture v w = (Normal (length (objects (host w))), w1)).
      { unfold parse_Gesture, newObject. run. rewrite Hv. by run. }
      specialize (IH w1).
      change (gestureStatic (host w1)) with st1 in IH.
      destruct (parseAll items st1) as [[gs|] st2]; unfold bind; rewrite Hg.
      * rewrite IH. subst w1. run. rewrite length_app, <- app_assoc. cbn.
        by replace (length (objects (host w)) + 1)%nat
          with (S (length (objects (host w)))) by lia.
      * destruct IH as (e & objs & st' & IH). rewrite IH. cbn.
        by exists e, objs, st'.
    + unfold bind, parse_Gesture. run. rewrite Hv. run.
      by exists TypeError, (objects (host w)), st1.
Qed.

(** Reading back the gestures just allocated. *)
Lemma mapM_read_allocated {B} (f : Gesture Example → B) (gs pre : list (Gesture Example))
    (w : World) :
  objects (host w) = pre ++ gs →
  mapM (λ g, gesture ← readObject g; mret (f gesture)) (seq (length pre) (length gs)) w =
    (Normal (f <$> gs), w).
Proof.
  revert pre. induction gs as [|g gs IH]; intros pre Hobj; [done|].
  cbn [length seq mapM fmap list_fmap].
  assert (Hread : (readObject (length pre) ≫= λ gesture, mret (f gesture)) w
                  = (Normal (f g), w)).
  { unfold readObject. run. rewrite Hobj, list_lookup_middle by done. by run. }
  specialize (IH (pre ++ [g])). rewrite length_app in IH. cbn [length] in IH.
  replace (length pre + 1)%nat with (S (length pre)) in IH by lia.
  unfold bind at 1. rewrite Hread. unfold bind at 1.
  rewrite IH by (by rewrite <- app_assoc). done.
Qed.

(** Hydration from an array whose records all parse. *)
Lemma loadBlocks_array (code text : string) (items : list JsValue)
    (gs : list (Gesture Example)) (st : Static) (w : World) :
  text ≠ EmptyString →
  JSON_parse text = Some (JArr items) →
  parseAll items (gestureStatic (host w)) = (Some gs, st) →
  loadBlocks code (Some text) w =
    (Normal tt,
     mkWorld
       (set_models (primed (latestTimestamp (this w)) <$> gs)
          (set_gestures (length (arrays (host w))) (this w)))
       (set_arrays (arrays (host w) ++ [seq (length (objects (host w))) (length gs)])
          (set_objects (objects (host w) ++ gs) (set_gestureStatic st (host w))))).
Proof.
  intros Htext Hparse Hall. unfold loadBlocks.
  apply String.eqb_neq in Htext. rewrite Htext, Hparse. cbn [truthy negb].
  pose proof (mapM_parse_Gesture items w) as Hm. rewrite Hall in Hm.
  unfold mbind, Eff_bind. unfold bind at 1. rewrite Hm.
  unfold newArray, readArray. run. rewrite lookup_push_new. run.
  match goal with |- context [mapM ?f ?l ?x] =>
    change (mapM f l x) with
      (mapM (λ g, gesture ← readObject g;
                  mret (primed (latestTimestamp (this w)) gesture)) l x);
    rewrite (mapM_read_allocated (primed (latestTimestamp (this w))) gs
               (objects (host w)) x eq_refl)
  end.
  done.
Qed.

(** Hydration from an array with a record that does not parse: the
    exception of the parser escapes and the store is as it was. *)
Lemma loadBlocks_rejected (code text : string) (items : list JsValue) (st : Static)
    (w : World) :
  text ≠ EmptyString →
  JSON_parse text = Some (JArr items) →
  parseAll items (gestureStatic (host w)) = (None, st) →
  ∃ e objs st',
    loadBlocks code (Some text) w =
      (Thrown e, mkWorld (this w) (set_objects objs (set_gestureStatic st' (host w)))).
Proof.
  intros Htext Hparse Hall. unfold loadBlocks.
  apply String.eqb_neq in Htext. rewrite Htext, Hparse. cbn [truthy negb].
  pose proof (mapM_parse_Gesture items w) as Hm. rewrite Hall in Hm.
  destruct Hm as (e & objs & st' & Hm). exists e, objs, st'.
  unfold mbind, Eff_bind. unfold bind at 1. by rewrite Hm.
Qed.

Lemma loadBlocks_catalog (code : string) (json : option string) (w : World) :
  aligned w → aligned (exec (loadBlocks code json) w).
Proof.
  intros Hw. destruct json as [text|]; [|done].
  destruct (String.eqb_spec text EmptyString) as [->|Htext]; [done|].
  destruct (JSON_parse text) as [v|] eqn:Hparse.
  2: { unfold loadBlocks, exec. apply String.eqb_neq in Htext.
       by rewrite Htext, Hparse. }
  destruct (truthy v) eqn:Hv.
  2: { unfold loadBlocks, exec. apply String.eqb_neq in Htext.
       by rewrite Htext, Hparse, Hv. }
  destruct v as [| | | |items|];
    try (unfold loadBlocks, exec; apply String.eqb_neq in Htext;
         by rewrite Htext, Hparse, Hv).
  destruct (parseAll items (gestureStatic (host w))) as [[gs|] st] eqn:Hall.
  - unfold exec. rewrite (loadBlocks_array code text items gs st w Htext Hparse Hall).
    unfold aligned, catalog. cbn. rewrite lookup_push_new.
    eexists. split; [done|]. by rewrite length_fmap, length_seq.
  - destruct (loadBlocks_rejected code text items st w Htext Hparse Hall)
      as (e & objs & st' & Hl).
    unfold exec. rewrite Hl. by unfold aligned, catalog in *.
Qed.

Lemma newStore_aligned (hash : string) (st : Static) (framed : bool) :
  aligned (newStore hash st framed : World).
Proof.
  unfold newStore, sendRequest, aligned, catalog. run.
  destruct framed; run; by exists [].
Qed.

(** C1: starting from the new store, after every operation of a sequence
    of catalog operations ([addGesture], [deleteGesture],
    [deleteIfGestureEmpty], [loadBlocks], and also [addSample],
    [deleteSample] and [setCurrentGesture]), whether the operation returned
    or threw, the matcher array is as long as the gesture array. *)
Theorem models_aligned_with_gestures (hash : string) (st : Static) (framed : bool)
    (ops : list CatalogOp) :
  let w : World := performAll ops (newStore hash st framed) in
  ∃ arr, catalog w = Some arr ∧ length (models (this w)) = length arr.
Proof.
  cbn zeta. change (aligned (performAll ops (newStore hash st framed : World))).
  generalize (newStore_aligned hash st framed).
  generalize (newStore hash st framed : World). clear hash st framed.
  induction ops as [|op ops IH]; intros w Hw; [done|].
  apply IH. clear IH. destruct Hw as (arr & Harr & Hlen).
  destruct op as [|g| |code json|g x|g x|gid]; cbn [perform].
  - unfold exec. rewrite (addGesture_eq w arr Harr). unfold aligned, catalog in *. cbn.
    rewrite list_lookup_insert_eq by (by apply lookup_lt_Some in Harr).
    eexists. split; [done|]. unfold push. rewrite !length_app. cbn [length].
    lia.
  - unfold exec. rewrite (deleteGesture_eq g w arr Harr). cbn zeta.
    destruct (Z.leb_spec 0 (indexOf g arr)) as [Hi|Hi]; [|by exists arr].
    rewrite markDirty_eq. unfold aligned, catalog in *. cbn.
    assert (Hr : 0 ≤ indexOf g arr < Z.of_nat (length arr)).
    { pose proof (findIndex_range (λ y, bool_decide (y = g)) arr). unfold indexOf in *. lia. }
    pose proof (splice1_length _ arr Hr).
    pose proof (splice1_length (indexOf g arr) (models (this w))).
    destruct (hasBeenModified (this w)); cbn;
      rewrite list_lookup_insert_eq by (by apply lookup_lt_Some in Harr);
      (eexists; split; [done|]; lia).
  - destruct (deleteIfGestureEmpty_catalog w arr Harr) as (_ & [->|(Hi & _ & Hc & Hm)]);
      [by exists arr|].
    eexists. split; [done|]. rewrite Hm.
    pose proof (splice1_length _ arr Hi).
    pose proof (splice1_length (curGestureIndex (this w)) (models (this w))). lia.
  - apply loadBlocks_catalog. by exists arr.
  - destruct (addSample_catalog g x w arr Harr) as (_ & ? & ? & _).
    exists arr. split; [done|]. congruence.
  - destruct (deleteSample_catalog g x w arr Harr) as (_ & ? & ? & _).
    exists arr. split; [done|]. congruence.
  - destruct (setCurrentGesture_catalog gid w) as (Ha & Hg & Hm). cbn zeta in *.
    exists arr. unfold catalog in *. rewrite Ha, Hg, Hm. done.
Qed.

(** C10: [deleteGesture] of a gesture that the catalog does not hold
    returns and leaves the whole state as it was: the gesture array, the
    matcher array and the dirty flag are unchanged and no timer is set. *)
Theorem deleteGesture_absent (gesture : loc) (w : World) (arr : list loc) :
  catalog w = Some arr →
  gesture ∉ arr →
  deleteGesture gesture w = (Normal tt, w).
Proof.
  intros Harr Hg. rewrite (deleteGesture_eq gesture w arr Harr). cbn zeta.
  apply indexOf_absent in Hg. by rewrite Hg.
Qed.


(* [deleteGesture] leaves the heap of gesture objects and the class
   [Gesture] as they were. *)
Lemma deleteGesture_heap (gesture : loc) (w : World) (arr : list loc) :
  catalog w = Some arr →
  let w' := exec (deleteGesture gesture) w in
  objects (host w') = objects (host w) ∧
  gestureStatic (host w') = gestureStatic (host w) ∧
  ∃ arr', catalog w' = Some arr'.
Proof.
  intros Harr. cbn zeta. unfold exec. rewrite (deleteGesture_eq gesture w arr Harr).
  cbn zeta. pose proof Harr as Hlt. apply lookup_lt_Some in Hlt.
  destruct (0 <=? indexOf gesture arr); [|by eauto].
  rewrite markDirty_eq. unfold catalog, armed.
  destruct (hasBeenModified _); cbn; rewrite list_lookup_insert_eq by done; by eauto.
Qed.

(* The ids stay below the counter when [addGesture] constructs a
   gesture. *)
Lemma addGesture_ids_below (nextId : Static → Z) (w : World) (arr : list loc) :
  catalog w = Some arr → numbered nextId → ids_below nextId w →
  ids_below nextId (exec addGesture w).
Proof.
  intros Harr Hnum Hbelow. destruct (Hnum (gestureStatic (host w))) as [Hid Hnext].
  unfold ids_below, exec. rewrite (addGesture_eq w arr Harr). cbn.
  intros o Ho. rewrite Hnext. unfold push in Ho.
  apply elem_of_app in Ho as [Ho|Ho]; [apply Hbelow in Ho; lia|].
  apply list_elem_of_singleton in Ho. subst o. lia.
Qed.


Lemma addSample_eq (gesture : loc) (newSample : Example) (w : World) (arr : list loc)
    (o : Gesture Example) (m : Core) :
  catalog w = Some arr →
  gesture ∈ arr →
  objects (host w) !! gesture = Some o →
  currentModel (this w) = Some m →
  let edited := mkGesture (gestureID o) (name o) (newSample :: samples o) (displayGesture o) in
  let model := update m (getCroppedData edited) (latestTimestamp (this w)) in
  let shown := mkGesture (gestureID o) (name o) (newSample :: samples o) (prototype model) in
  addSample gesture newSample w =
    markDirty
      (mkWorld
         (set_gestures (length (arrays (host w)))
            (set_models (<[Z.to_nat (curGestureIndex (this w)) := model]> (models (this w)))
               (this w)))
         (set_objects (<[gesture := shown]> (<[gesture := edited]> (objects (host w))))
            (set_arrays (arrays (host w) ++ [arr]) (host w)))).
Proof.
  unfold catalog, currentModel. intros Harr Hin Ho Hm. cbn zeta.
  unfold addSample, slice, newArray, readArray, writeObject, readObject, updateModel.
  run. rewrite Harr. run.
  rewrite (lookup_push_old _ _ _ _ Harr). run.
  rewrite lookup_push_new. run.
  rewrite (indexOf_lookup gesture arr Hin). run. rewrite Ho. run.
  rewrite list_lookup_insert_eq by (by apply lookup_lt_Some in Ho). run.
  rewrite Hm. run. done.
Qed.

(** [markDirty] returns and sets the flag; of the store it changes the
    flag and the timer of [saveBlocks] only, and it leaves the heap alone. *)
Lemma markDirty_fields (w : World) :
  let w' := exec markDirty w in
  (markDirty w).1 = Normal tt ∧
  hasBeenModified (this w') = true ∧
  gestures (this w') = gestures (this w) ∧
  models (this w') = models (this w) ∧
  curGestureIndex (this w') = curGestureIndex (this w) ∧
  latestTimestamp (this w') = latestTimestamp (this w) ∧
  arrays (host w') = arrays (host w) ∧
  objects (host w') = objects (host w).
Proof.
  cbn zeta. unfold exec. rewrite markDirty_eq. cbn.
  by destruct (hasBeenModified (this w)) eqn:Hd.
Qed.

Lemma addSample_step (gesture : loc) (newSample : Example) (w : World) (arr : list loc)
    (o : Gesture Example) (m : Core) :
  catalog w = Some arr →
  gesture ∈ arr →
  objects (host w) !! gesture = Some o →
  currentModel (this w) = Some m →
  let w' := exec (addSample gesture newSample) w in
  let edited := mkGesture (gestureID o) (name o) (newSample :: samples o) (displayGesture o) in
  let model := update m (getCroppedData edited) (latestTimestamp (this w)) in
  (addSample gesture newSample w).1 = Normal tt ∧
  objects (host w') !! gesture =
    Some (mkGesture (gestureID o) (name o) (newSample :: samples o) (prototype model)) ∧
  models (this w') = <[Z.to_nat (curGestureIndex (this w)) := model]> (models (this w)) ∧
  currentModel (this w') = Some model ∧
  catalog w' = Some arr ∧
  gestures (this w') ≠ gestures (this w) ∧
  hasBeenModified (this w') = true.
Proof.
  intros Harr Hin Ho Hm. cbn zeta. unfold exec.
  rewrite (addSample_eq gesture newSample w arr o m Harr Hin Ho Hm). cbn zeta.
  match goal with |- context [markDirty ?x] => set (w1 := x) end.
  destruct (markDirty_fields w1) as (Hr & Hd & Hg & Hms & Hc & _ & Ha & Hobj).
  cbn zeta in *. unfold exec, catalog, currentModel in *.
  rewrite Hr, Hd, Hg, Hms, Hc, Ha, Hobj. subst w1. cbn.
  split; [done|]. split.
  { apply list_lookup_insert_eq. rewrite length_insert. by apply lookup_lt_Some in Ho. }
  split; [done|]. split.
  { unfold js_get in *. destruct (Z.ltb_spec (curGestureIndex (this w)) 0); [done|].
    apply list_lookup_insert_eq. by apply lookup_lt_Some in Hm. }
  split; [apply lookup_push_new|]. split; [|done].
  apply lookup_lt_Some in Harr. lia.
Qed.

(** C7: for a gesture of the catalog, when the current index has a
    matcher, [addSample] returns; the sample is the first of the gesture's
    samples afterwards; the matcher at the current index (whichever gesture
    was edited) is updated with the cropped data of the edited gesture and
    the tick, and its prototype becomes the display of the edited gesture;
    the other matchers are as they were; a copy of the array is published
    and the store is dirty.  A second sample goes in front of the first. *)
Theorem addSample_front (gesture : loc) (newSample : Example) (w : World)
    (arr : list loc) (o : Gesture Example) (m : Core) :
  catalog w = Some arr →
  gesture ∈ arr →
  objects (host w) !! gesture = Some o →
  currentModel (this w) = Some m →
  let w' := exec (addSample gesture newSample) w in
  let edited := mkGesture (gestureID o) (name o) (newSample :: samples o) (displayGesture o) in
  let model := update m (getCroppedData edited) (latestTimestamp (this w)) in
  (addSample gesture newSample w).1 = Normal tt ∧
  objects (host w') !! gesture =
    Some (mkGesture (gestureID o) (name o) (newSample :: samples o) (prototype model)) ∧
  currentModel (this w') = Some model ∧
  (∀ i, i ≠ Z.to_nat (curGestureIndex (this w)) →
        models (this w') !! i = models (this w) !! i) ∧
  catalog w' = Some arr ∧
  gestures (this w') ≠ gestures (this w) ∧
  hasBeenModified (this w') = true ∧
  (∀ second, samples o = [] →
     ∃ o2, objects (host (exec (addSample gesture second) w')) !! gesture = Some o2 ∧
           samples o2 = [second; newSample]).
Proof.
  intros Harr Hin Ho Hm. cbn zeta.
  destruct (addSample_step gesture newSample w arr o m Harr Hin Ho Hm)
    as (Hr & Hobj & Hms & Hcur & Hcat & Hne & Hd). cbn zeta in *.
  split; [done|]. split; [done|]. split; [done|]. split.
  { intros i Hi. rewrite Hms. by apply list_lookup_insert_ne. }
  split; [done|]. split; [done|]. split; [done|].
  intros second Hnil.
  destruct (addSample_step gesture second _ arr _ _ Hcat Hin Hobj Hcur)
    as (_ & Hobj2 & _). cbn zeta in Hobj2. cbn [samples gestureID name] in Hobj2.
  eexists. split; [exact Hobj2|]. cbn. by rewrite Hnil.
Qed.

(** C2, as the code has it: [addSample], [deleteSample] and
    [deleteIfGestureEmpty] work on a copy of the gesture array: the array
    that [this.gestures] referenced before keeps its elements, and when they
    publish, [this.gestures] references another array.  [addGesture] and
    [deleteGesture] change the very array that [this.gestures] references,
    by [push] and [splice]. *)
Theorem catalog_copy_on_write (w : World) (arr : list loc) :
  catalog w = Some arr →
  (∀ g x, keeps_published (addSample g x) w ∧
          ((addSample g x w).1 = Normal tt →
           gestures (this (exec (addSample g x) w)) ≠ gestures (this w))) ∧
  (∀ g x, keeps_published (deleteSample g x) w ∧
          ((deleteSample g x w).1 = Normal tt →
           gestures (this (exec (deleteSample g x) w)) ≠ gestures (this w))) ∧
  (keeps_published deleteIfGestureEmpty w ∧
   (exec deleteIfGestureEmpty w ≠ w →
    gestures (this (exec deleteIfGestureEmpty w)) ≠ gestures (this w))) ∧
  (gestures (this (exec addGesture w)) = gestures (this w) ∧
   arrays (host (exec addGesture w)) !! gestures (this w)
     = Some (arr ++ [length (objects (host w))])) ∧
  (∀ g, g ∈ arr →
        gestures (this (exec (deleteGesture g) w)) = gestures (this w) ∧
        arrays (host (exec (deleteGesture g) w)) !! gestures (this w)
          = Some (splice1 (indexOf g arr) arr) ∧
        length (splice1 (indexOf g arr) arr) < length arr)%nat.
Proof.
  intros Harr. pose proof Harr as Hlt. apply lookup_lt_Some in Hlt.
  unfold keeps_published. rewrite Harr. repeat apply conj.
  - intros g x. destruct (addSample_catalog g x w arr Harr) as (Hk & _ & _ & Hp).
    split; [done|]. intros Hr. rewrite (Hp Hr). lia.
  - intros g x. destruct (deleteSample_catalog g x w arr Harr) as (Hk & _ & _ & Hp).
    split; [done|]. intros Hr. rewrite (Hp Hr). lia.
  - by destruct (deleteIfGestureEmpty_catalog w arr Harr) as (Hk & _).
  - destruct (deleteIfGestureEmpty_catalog w arr Harr) as (_ & [Hsame|(_ & Hg & _)]);
      [done|]. intros _. cbn zeta in Hg. rewrite Hg. lia.
  - unfold exec. by rewrite (addGesture_eq w arr Harr).
  - unfold exec. rewrite (addGesture_eq w arr Harr). cbn.
    by rewrite list_lookup_insert_eq.
  - intros g Hin.
    assert (Hi : 0 ≤ indexOf g arr < Z.of_nat (length arr)).
    { pose proof (indexOf_lookup g arr Hin) as Hl. by apply js_get_Some in Hl. }
    unfold exec. rewrite (deleteGesture_eq g w arr Harr). cbn zeta.
    destruct (Z.leb_spec 0 (indexOf g arr)); [|lia].
    match goal with |- context [markDirty ?x] => set (w1 := x) end.
    destruct (markDirty_fields w1) as (_ & _ & Hg & _ & _ & _ & Ha & _).
    cbn zeta in *. unfold exec in *. rewrite Hg, Ha. subst w1. cbn.
    rewrite list_lookup_insert_eq by done.
    pose proof (splice1_length _ arr Hi). split; [done|]. split; [done|]. lia.
Qed.

(** C9, as the code has it: [loadBlocks] with no [json], with the empty
    string, or with a text that parses to a falsy value ([null], [false],
    [0], the empty string) returns and leaves the state as it was.  With a
    text that parses to an array whose records all parse (the empty array
    is one) it returns, publishes a new array of new gesture objects, one
    per record and in their order, and replaces the matcher array by one
    new matcher per gesture, built from [(gestureID + 1, name)] and updated
    with the gesture's cropped data and the current tick; the array
    published before keeps its elements. *)
Theorem loadBlocks_hydrate (code : string) (w : World) :
  loadBlocks code None w = (Normal tt, w) ∧
  loadBlocks code (Some EmptyString) w = (Normal tt, w) ∧
  (∀ text v, JSON_parse text = Some v → truthy v = false →
     loadBlocks code (Some text) w = (Normal tt, w)) ∧
  (∀ text items gs st,
     text ≠ EmptyString →
     JSON_parse text = Some (JArr items) →
     parseAll items (gestureStatic (host w)) = (Some gs, st) →
     let w' := exec (loadBlocks code (Some text)) w in
     (loadBlocks code (Some text) w).1 = Normal tt ∧
     (∃ refs, catalog w' = Some refs ∧ length refs = length gs ∧
              ∀ i g, gs !! i = Some g →
                     ∃ r, refs !! i = Some r ∧ objects (host w') !! r = Some g) ∧
     models (this w') = primed (latestTimestamp (this w)) <$> gs ∧
     (∀ arr, catalog w = Some arr →
             gestures (this w') ≠ gestures (this w) ∧
             arrays (host w') !! gestures (this w) = Some arr)).
Proof.
  split; [done|]. split; [done|]. split.
  - intros text v Hparse Hv. unfold loadBlocks.
    destruct (String.eqb text EmptyString); [done|]. by rewrite Hparse, Hv.
  - intros text items gs st Htext Hparse Hall. cbn zeta. unfold exec.
    rewrite (loadBlocks_array code text items gs st w Htext Hparse Hall).
    unfold catalog. cbn. split; [done|]. split; [|split; [done|]].
    + exists (seq (length (objects (host w))) (length gs)).
      split; [apply lookup_push_new|]. split; [apply length_seq|].
      intros i g Hg. exists (length (objects (host w)) + i)%nat. split.
      * apply lookup_seq. split; [done|]. by apply lookup_lt_Some in Hg.
      * rewrite lookup_app_r by lia.
        by replace (length (objects (host w)) + i - length (objects (host w)))%nat
          with i by lia.
    + intros arr Harr. split; [|by apply lookup_push_old].
      apply lookup_lt_Some in Harr. lia.
Qed.

(** ** Host messages *)

Lemma sendRequest_eq (action : string) (body : option WriteBody) (w : World) :
  sendRequest action body w =
    let id := Math_random (randomCount (host w)) in
    let msg := mkEnvelope "pxtpkgext" action (extId (this w)) true id body in
    (Normal tt,
     mkWorld (set_idToType (<[id := action]> (idToType (this w))) (this w))
       (set_posted (if inFrame (host w) then push msg (posted (host w)) else posted (host w))
          (set_randomCount (S (randomCount (host w))) (host w)))).
Proof.
  unfold sendRequest. run. destruct (inFrame (host w)); run; done.
Qed.

(** Hydration leaves the pending requests and the random numbers alone,
    however it ends. *)
Lemma loadBlocks_sync (code : string) (json : option string) (w : World) :
  let w' := exec (loadBlocks code json) w in
  idToType (this w') = idToType (this w) ∧
  randomCount (host w') = randomCount (host w).
Proof.
  cbn zeta. destruct json as [text|]; [|done].
  destruct (String.eqb_spec text EmptyString) as [->|Hne]; [done|].
  pose proof Hne as Htext. apply String.eqb_neq in Htext.
  destruct (JSON_parse text) as [v|] eqn:Hparse;
    [|unfold loadBlocks, exec; by rewrite Htext, Hparse].
  destruct (truthy v) eqn:Hv;
    [|unfold loadBlocks, exec; by rewrite Htext, Hparse, Hv].
  destruct v as [| | | |items|];
    try (unfold loadBlocks, exec; by rewrite Htext, Hparse, Hv).
  destruct (parseAll items (gestureStatic (host w))) as [[gs|] st] eqn:Hall.
  - unfold exec.
    by rewrite (loadBlocks_array code text items gs st w Hne Hparse Hall).
  - destruct (loadBlocks_rejected code text items st w Hne Hparse Hall)
      as (e & objs & st' & Hl).
    unfold exec. by rewrite Hl.
Qed.

Lemma onSerialData_sync (strBuf : string) (w : World) :
  let w' := exec (onSerialData strBuf) w in
  idToType (this w') = idToType (this w) ∧ host w' = host w.
Proof.
  cbn zeta. unfold onSerialData. run.
  destruct (acc (parseString strBuf)); run; [|done].
  unfold serialHandler. run.
  destruct (READING_HISTORY_LIMIT <? _); run;
    unfold currentModel; run;
    (destruct (js_get _ _) as [m|]; run; [|done]);
    (destruct (isRunning m); run; [|done]);
    (destruct (feed m _) as [m' [found|]]; run; done).
Qed.

Arguments onSerialData : simpl never.
Arguments loadBlocks : simpl never.
Arguments sendRequest : simpl never.

(** A correlation id that is not pending, or that is the id of the
    response being received, is not pending afterwards, as long as no
    random number drawn from now on prints as this id. *)
Lemma receiveMessage_consumes (X : string) (data : ExtensionMessage) (w : World) :
  (∀ n, (randomCount (host w) ≤ n)%nat → Math_random n ≠ X) →
  idToType (this w) !! X = None ∨ (nonempty (msg_event data) = false ∧ msg_id data = X) →
  let w' := exec (receiveMessage data) w in
  idToType (this w') !! X = None ∧ (randomCount (host w) ≤ randomCount (host w'))%nat.
Proof.
  intros Hrand Hx. cbn zeta. unfold receiveMessage.
  destruct (nonempty (msg_event data)) eqn:Hev.
  - destruct Hx as [Hx|[? _]]; [|done].
    destruct (String.eqb _ "extconsole").
    { run_sync. destruct (msg_cons_body data) as [[sim strBuf]|]; run_sync; [|done].
      destruct sim; [done|].
      destruct (onSerialData_sync strBuf w) as [Hi Hh]. cbn zeta in *.
      unfold exec in *. by rewrite Hi, Hh. }
    destruct (String.eqb _ "extshown").
    { run_sync. rewrite sendRequest_eq. run_sync. rewrite sendRequest_eq. run_sync.
      rewrite !lookup_insert_ne by (apply Hrand; lia). split; [done|lia]. }
    destruct (String.eqb _ "exthidden"); run_sync; done.
  - assert (Hdel : delete (msg_id data) (idToType (this w)) !! X = None).
    { destruct Hx as [Hx|[_ <-]]; [|apply lookup_delete_eq].
      rewrite lookup_delete. by case_decide. }
    run_sync.
    destruct (bool_decide _).
    { rewrite sendRequest_eq. run_sync. rewrite sendRequest_eq. run_sync.
      rewrite !lookup_insert_ne by (apply Hrand; lia). split; [done|lia]. }
    destruct (bool_decide _); run_sync; [|done].
    destruct (msg_resp data) as [[code json]|]; run_sync; [|done].
    destruct (loadBlocks_sync code json (consumed (msg_id data) w)) as [Hi Hn].
    cbn zeta in *. unfold exec, consumed in *. rewrite Hi, Hn. run_sync.
    split; [done|lia].
Qed.

Lemma receiveAll_not_pending (X : string) (msgs : list ExtensionMessage) (w : World) :
  (∀ n, (randomCount (host w) ≤ n)%nat → Math_random n ≠ X) →
  idToType (this w) !! X = None →
  idToType (this (receiveAll msgs w)) !! X = None.
Proof.
  revert w. induction msgs as [|data msgs IH]; intros w Hrand Hx; [done|].
  destruct (receiveMessage_consumes X data w Hrand (or_introl Hx)) as [Hx' Hn].
  cbn zeta in *. apply IH; [|done]. intros n Hle. apply Hrand. lia.
Qed.

Lemma receiveMessage_not_pending (data : ExtensionMessage) (w : World) :
  nonempty (msg_event data) = false →
  idToType (this w) !! msg_id data = None →
  receiveMessage data w = (Normal tt, w).
Proof.
  intros Hev Hx. unfold receiveMessage. rewrite Hev. run_sync. rewrite Hx.
  rewrite !bool_decide_eq_false_2 by done. rewrite delete_id by done.
  by destruct w as [[] ?].
Qed.

(** C8: a response (a message without event name) is dispatched on the
    action recorded for its id, after the entry has been removed from
    [idToType]; a response whose id is not pending (never recorded, or
    consumed already) does nothing at all; and once a response has been
    received its id is not pending after any further messages, so that a
    duplicate does nothing, as long as no request sent later draws the
    same random id again. *)
Theorem response_consumed_once (data : ExtensionMessage) (w : World) :
  nonempty (msg_event data) = false →
  let X := msg_id data in
  (idToType (this w) !! X = Some "extinit" →
     receiveMessage data w =
       (sendRequest "extdatastream" None;; sendRequest "extreadcode" None)
         (consumed X w)) ∧
  (idToType (this w) !! X = Some "extreadcode" →
     receiveMessage data w =
       ('(code, json) ← deref (msg_resp data); loadBlocks code json) (consumed X w)) ∧
  (idToType (this w) !! X = None → receiveMessage data w = (Normal tt, w)) ∧
  ((∀ n, (randomCount (host w) ≤ n)%nat → Math_random n ≠ X) →
   ∀ msgs,
     let w' := receiveAll msgs (exec (receiveMessage data) w) in
     idToType (this w') !! X = None ∧ receiveMessage data w' = (Normal tt, w')).
Proof.
  intros Hev. cbn zeta. split; [|split; [|split]].
  - intros Hx. unfold receiveMessage. rewrite Hev. run_sync. rewrite Hx.
    by rewrite bool_decide_eq_true_2.
  - intros Hx. unfold receiveMessage. rewrite Hev. run_sync. rewrite Hx.
    rewrite bool_decide_eq_false_2 by done. by rewrite bool_decide_eq_true_2.
  - by apply receiveMessage_not_pending.
  - intros Hrand msgs.
    destruct (receiveMessage_consumes (msg_id data) data w Hrand) as [Hx Hn];
      [by right|]. cbn zeta in *.
    assert (Hx' : idToType (this (receiveAll msgs (exec (receiveMessage data) w)))
                    !! msg_id data = None).
    { apply receiveAll_not_pending; [|done]. intros n Hle. apply Hrand. lia. }
    split; [done|]. by apply receiveMessage_not_pending.
Qed.

(** ** The scheduler *)

(** While the one pending timer is not due, time passes and nothing else
    happens. *)
Lemma advance_quiet (dt : nat) (w : World) (id : nat) (due : Z) :
  timers (host w) = [(id, due)] →
  clock (host w) + Z.of_nat dt < due →
  advance dt w = mkWorld (this w) (set_clock (clock (host w) + Z.of_nat dt) (host w)).
Proof.
  intros Ht Hdue. unfold advance. rewrite Ht.
  rewrite filter_singleton_False by (exact [] || (cbn; lia)). done.
Qed.

(** A dirty store with its timer pending ignores further calls of
    [markDirty] until the timer is due. *)
Lemma play_armed (script : list Step) (w : World) (id : nat) (due : Z) :
  hasBeenModified (this w) = true →
  timers (host w) = [(id, due)] →
  clock (host w) + waited script < due →
  play script w = mkWorld (this w) (set_clock (clock (host w) + waited script) (host w)).
Proof.
  revert w. induction script as [|[|dt] script IH]; intros w Hd Ht Hdue.
  - cbn. rewrite Z.add_0_r. by destruct w as [? []].
  - change (play (Call :: script) w) with (play script (exec markDirty w)).
    unfold exec. rewrite markDirty_eq, Hd. cbn [snd waited]. by apply IH.
  - change (play (Wait dt :: script) w) with (play script (advance dt w)).
    cbn [waited] in *. pose proof (Nat2Z.is_nonneg dt).
    assert (0 ≤ waited script).
    { clear. induction script as [|[|?] ? ?]; cbn; lia. }
    rewrite (advance_quiet dt w id due Ht) by lia.
    rewrite IH; [|done|done|cbn; lia].
    cbn. by rewrite Z.add_assoc.
Qed.

Lemma mapM_readObject_grounded (arr : list loc) (w : World) :
  (∀ g, g ∈ arr → is_Some (objects (host w) !! g)) →
  ∃ gs, mapM readObject arr w = (Normal gs, w).
Proof.
  induction arr as [|g arr IH]; intros Hall; [by exists []|].
  destruct (Hall g) as [o Ho]; [left|].
  destruct IH as [gs Hgs]; [intros g' Hg'; apply Hall; by right|].
  exists (o :: gs). cbn [mapM]. unfold bind at 1, readObject at 1. run.
  rewrite Ho. run. by rewrite Hgs.
Qed.

(** The timer fires on a dirty store: one write request is posted, the
    flag is cleared and no timer is left. *)
Lemma advance_fires (dt : nat) (w : World) (id : nat) (due : Z) :
  hasBeenModified (this w) = true →
  timers (host w) = [(id, due)] →
  due ≤ clock (host w) + Z.of_nat dt →
  grounded w →
  inFrame (host w) = true →
  let w' := advance dt w in
  flushes w' = S (flushes w) ∧ idle w' ∧ grounded w' ∧ inFrame (host w') = true.
Proof.
  intros Hd Ht Hdue (arr & Hcat & Hobj) Hframe. cbn zeta. unfold catalog in Hcat.
  unfold advance. rewrite Ht.
  rewrite filter_singleton_True by (exact [] || (cbn; lia)).
  cbn [foldl]. unfold fireTimer. rewrite Ht.
  rewrite bool_decide_eq_true_2 by left.
  unfold later, debounce_later, saveBlocksNow, slice, newArray, readArray.
  run_sync. rewrite Ht, Hd. run_sync. rewrite Hcat. run_sync.
  rewrite (lookup_push_old _ _ _ _ Hcat). run_sync.
  match goal with |- context [mapM readObject arr ?x] =>
    destruct (mapM_readObject_grounded arr x) as [gs Hgs]; [exact Hobj|]
  end.
  rewrite Hgs. run_sync. rewrite sendRequest_eq. run_sync.
  rewrite Hframe.
  rewrite decide_False by (intros Hne; by apply Hne).
  unfold flushes, idle, grounded, catalog. run_sync.
  unfold push. rewrite filter_app, length_app.
  rewrite filter_singleton_True by (exact [] || done).
  rewrite lookup_push_new.
  split; [cbn [length]; lia|]. split; [done|]. split; [|done].
  by exists arr.
Qed.

(** C3, as the code has it: on a store that is not dirty and has no
    timer pending, [markDirty] sets the flag and schedules the flush 2000 ms
    later.  While the flag is set every further call of [markDirty] returns
    at once and changes nothing: the timer is not reset and stays due 2000
    ms after the first call.  However many calls follow within the delay,
    exactly one flush is posted when the timer fires; the store is then
    clean with no timer pending, so that the next call schedules one new
    flush. *)
Theorem markDirty_debounce (script : list Step) (dt : nat) (w : World) :
  idle w →
  grounded w →
  inFrame (host w) = true →
  waited script < 2000 ≤ waited script + Z.of_nat dt →
  let due := clock (host w) + 2000 in
  let w1 := play (Call :: script) w in
  let w2 := advance dt w1 in
  hasBeenModified (this w1) = true ∧
  timers (host w1) = [(S (timerCount (host w)), due)] ∧
  markDirty w1 = (Normal tt, w1) ∧
  flushes w1 = flushes w ∧
  flushes w2 = S (flushes w) ∧
  idle w2 ∧ grounded w2 ∧ inFrame (host w2) = true.
Proof.
  intros [Hd Ht] Hg Hframe Hwait. cbn zeta.
  change (play (Call :: script) w) with (play script (exec markDirty w)).
  assert (Hfirst : exec markDirty w = armed w)
    by (unfold exec; by rewrite markDirty_eq, Hd).
  rewrite Hfirst.
  assert (Htimers : timers (host (armed w))
                    = [(S (timerCount (host w)), clock (host w) + 2000)]).
  { unfold armed. cbn. rewrite Ht. by destruct (timeout (this w)). }
  assert (Hdirty : hasBeenModified (this (armed w)) = true) by done.
  rewrite (play_armed script (armed w) _ _ Hdirty Htimers) by (cbn; lia).
  set (w1 := mkWorld _ _).
  assert (Hd1 : hasBeenModified (this w1) = true) by done.
  assert (Ht1 : timers (host w1) = [(S (timerCount (host w)), clock (host w) + 2000)])
    by exact Htimers.
  split; [done|]. split; [done|]. split; [by rewrite markDirty_eq, Hd1|].
  split; [done|].
  apply (advance_fires dt w1 _ _ Hd1 Ht1); [cbn; lia| |done].
  destruct Hg as (arr & Hcat & Hobj). by exists arr.
Qed.

(** ** The sensor stream *)

(** One frame: the callback returns, the conditioned reading is pushed, the
    oldest reading leaves when there are more than 30, the tick grows by
    one and the filters remember the conditioned values. *)
Lemma serialHandler_stream (data : SensorData) (w : World) :
  let s := this w in
  let s' := this (exec (serialHandler data) w) in
  let x := lowPass (accelX (accVec data)) (filterX s) in
  let y := lowPass (accelY (accVec data)) (filterY s) in
  let z := lowPass (accelZ (accVec data)) (filterZ s) in
  let pushed := push (mkReading x y z) (readings s) in
  (serialHandler data w).1 = Normal tt ∧
  readings s' = (if READING_HISTORY_LIMIT <? Z.of_nat (length pushed)
                 then shift pushed else pushed) ∧
  latestTimestamp s' = latestTimestamp s + 1 ∧
  filterX s' = x ∧ filterY s' = y ∧ filterZ s' = z.
Proof.
  unfold serialHandler. run.
  destruct (READING_HISTORY_LIMIT <? _); run;
    unfold currentModel; run;
    (destruct (js_get _ _) as [m|]; run; [|done]);
    (destruct (isRunning m); run; [|done]);
    (destruct (feed m _) as [m' [found|]]; run; done).
Qed.

Lemma feedAll_cons (data : SensorData) (frames : list SensorData) (w : World) :
  feedAll (data :: frames) w = feedAll frames (exec (serialHandler data) w).
Proof. reflexivity. Qed.

(** The window that the buffer keeps: the last 30 of everything pushed. *)
Lemma feedAll_window (frames : list SensorData) (w : World) :
  (length (readings (this w)) ≤ 30)%nat →
  let s := this w in
  let s' := this (feedAll frames w) in
  let all := readings s ++ smoothed (filterX s) (filterY s) (filterZ s) frames in
  readings s' = drop (length all - 30) all ∧
  latestTimestamp s' = latestTimestamp s + Z.of_nat (length frames).
Proof.
  revert w. induction frames as [|data frames IH]; intros w Hlen; cbn zeta.
  - cbn. rewrite app_nil_r. split; [|lia].
    replace (length (readings (this w)) - 30)%nat with 0%nat by lia. done.
  - rewrite feedAll_cons.
    destruct (serialHandler_stream data w) as (_ & Hr & Ht & Hx & Hy & Hz).
    cbn zeta in *. unfold push, shift, READING_HISTORY_LIMIT in Hr.
    rewrite length_app in Hr. cbn [length] in Hr.
    set (w1 := exec (serialHandler data) w) in *.
    set (r := mkReading _ _ _) in *.
    assert (Hlen1 : (length (readings (this w1)) ≤ 30)%nat).
    { rewrite Hr. destruct (Z.ltb_spec 30 (Z.of_nat (length (readings (this w)) + 1))).
      - destruct (readings (this w)); cbn in *; [lia|]. rewrite length_app. cbn. lia.
      - rewrite length_app. cbn. lia. }
    destruct (IH w1 Hlen1) as [IHr IHt]. cbn zeta in IHr, IHt.
    rewrite IHr, IHt, Ht, Hx, Hy, Hz. cbn [smoothed].
    fold r. split; [|cbn [length]; lia].
    rewrite Hr.
    set (rest := smoothed _ _ _ frames).
    replace (readings (this w) ++ r :: rest) with ((readings (this w) ++ [r]) ++ rest)
      by (by rewrite <- app_assoc).
    destruct (Z.ltb_spec 30 (Z.of_nat (length (readings (this w)) + 1))).
    + destruct (readings (this w)) as [|r0 old] eqn:Hold; cbn in *; [lia|].
      assert (length old = 29%nat) by lia.
      rewrite !length_app, ?length_app. cbn [length].
      replace (length old + 1 + length rest - 30)%nat with (length rest) by lia.
      replace (length old + 1 + length rest - 29)%nat with (S (length rest)) by lia.
      done.
    + done.
Qed.

Lemma smoothed_length (fx fy fz : float) (frames : list SensorData) :
  length (smoothed fx fy fz frames) = length frames.
Proof.
  revert fx fy fz. induction frames as [|d fs IH]; intros; cbn; [done|].
  by rewrite IH.
Qed.

(** C5: whatever frames the sensor delivers to a store whose buffer holds
    at most 30 readings (the new store holds none), the buffer holds at
    most 30 afterwards, and it holds the last 30 of all readings pushed, in
    the order they were pushed; after more than 30 frames these are the
    last 30 conditioned frames.  After 35 frames, from an empty buffer and
    tick 0, it holds readings 5 to 34 and the tick is 35. *)
Theorem history_buffer_window (frames : list SensorData) (w : World) :
  (length (readings (this w)) ≤ 30)%nat →
  let s := this w in
  let s' := this (feedAll frames w) in
  let pushed := smoothed (filterX s) (filterY s) (filterZ s) frames in
  (length (readings s') ≤ 30)%nat ∧
  readings s' = drop (length (readings s ++ pushed) - 30) (readings s ++ pushed) ∧
  ((30 < length frames)%nat →
     readings s' = drop (length frames - 30) pushed ∧ length (readings s') = 30%nat) ∧
  (length frames = 35%nat → readings s = [] → latestTimestamp s = 0 →
     readings s' = drop 5 pushed ∧ latestTimestamp s' = 35).
Proof.
  intros Hlen. cbn zeta.
  destruct (feedAll_window frames w Hlen) as [Hr Ht]. cbn zeta in Hr, Ht.
  set (pushed := smoothed _ _ _ frames) in *.
  assert (Hp : length pushed = length frames) by apply smoothed_length.
  split; [|split; [done|split]].
  - rewrite Hr, length_drop. lia.
  - intros HK. rewrite Hr. split.
    + rewrite length_app, drop_app_ge by lia. f_equal. lia.
    + rewrite length_drop, length_app. lia.
  - intros HK Hnil H0. rewrite Hr, Ht, Hnil, H0, HK. cbn [app length].
    rewrite Hp, HK. done.
Qed.

(** ** Matches *)

(** C6: [isMatch] turns the position in the buffer into the tick
    [latestTimestamp - (readings.length - 1 - readingIndex)] and answers
    whether a recorded match contains that tick, both ends included; with
    the one match from 5 to 10, ticks 5, 7 and 10 are matches and ticks 4
    and 11 are not. *)
Theorem isMatch_inclusive (s : GestureStore) (readingIndex : Z) :
  let tick := latestTimestamp s - (Z.of_nat (length (readings s)) - 1 - readingIndex) in
  (isMatch s readingIndex = true ↔
     ∃ m, m ∈ matches s ∧ startTime m ≤ tick ≤ endTime m) ∧
  (matches s = [mkMatch 5 10] →
     (tick = 5 ∨ tick = 7 ∨ tick = 10 → isMatch s readingIndex = true) ∧
     (tick = 4 ∨ tick = 11 → isMatch s readingIndex = false)).
Proof.
  cbn zeta. unfold isMatch. set (tick := _ - _). split.
  - rewrite Z.leb_le, findIndex_found. split.
    + intros (m & Hm & Hp). exists m. split; [done|].
      apply andb_true_iff in Hp as [H1 H2]. lia.
    + intros (m & Hm & Hp). exists m. split; [done|].
      apply andb_true_iff. lia.
  - intros ->. cbn. split.
    + intros Ht. assert (Hin : (5 <=? tick) && (tick <=? 10) = true)
        by (apply andb_true_iff; lia).
      by rewrite Hin.
    + intros Ht. assert (Hout : (5 <=? tick) && (tick <=? 10) = false)
        by (apply andb_false_iff; lia).
      by rewrite Hout.
Qed.

(** * Further properties of the store *)

(** ** Arrays, continued *)

Lemma splice1_in_range {A} (i : Z) (l : list A) :
  0 ≤ i < Z.of_nat (length l) → splice1 i l = delete (Z.to_nat i) l.
Proof.
  intros Hi. unfold splice1. destruct (Z.ltb_spec i 0); [lia|].
  by rewrite Z.min_l by lia.
Qed.

Lemma indexOf_first {A} `{EqDecision A} (x : A) (l1 l2 : list A) :
  x ∉ l1 → indexOf x (l1 ++ x :: l2) = Z.of_nat (length l1).
Proof.
  unfold indexOf. induction l1 as [|y l1 IH]; intros Hx; cbn [app findIndex length].
  - by rewrite bool_decide_eq_true_2.
  - apply not_elem_of_cons in Hx as [Hne Hx].
    rewrite bool_decide_eq_false_2 by done. rewrite (IH Hx).
    destruct (Z.ltb_spec (Z.of_nat (length l1)) 0); lia.
Qed.

(** [splice(indexOf(x), 1)] removes the first occurrence of [x]. *)
Lemma splice1_first {A} `{EqDecision A} (x : A) (l1 l2 : list A) :
  x ∉ l1 → splice1 (indexOf x (l1 ++ x :: l2)) (l1 ++ x :: l2) = l1 ++ l2.
Proof.
  intros Hx. rewrite (indexOf_first x l1 l2 Hx).
  rewrite splice1_in_range by (rewrite length_app; cbn; lia).
  rewrite Nat2Z.id. apply delete_middle.
Qed.

(** [splice(-1, 1)], which is what [splice(indexOf(x), 1)] is for an [x]
    that the array does not hold, removes the last element. *)
Lemma splice1_absent {A} `{EqDecision A} (x : A) (l : list A) :
  x ∉ l → splice1 (indexOf x l) l = take (length l - 1) l.
Proof.
  intros Hx. apply indexOf_absent in Hx. rewrite Hx. unfold splice1.
  change (-1 <? 0) with true. cbn iota.
  replace (Z.to_nat (Z.max (Z.of_nat (length l) + -1) 0)) with (length l - 1)%nat by lia.
  rewrite delete_take_drop. rewrite drop_ge by lia. by rewrite app_nil_r.
Qed.

(** ** Editing the samples of a gesture *)

Lemma deleteSample_eq (gesture : loc) (sample : Example) (w : World) (arr : list loc)
    (o : Gesture Example) (m : Core) :
  catalog w = Some arr →
  gesture ∈ arr →
  objects (host w) !! gesture = Some o →
  js_get (models (this w)) (indexOf gesture arr) = Some m →
  let kept := splice1 (indexOf sample (samples o)) (samples o) in
  let edited := mkGesture (gestureID o) (name o) kept (displayGesture o) in
  let model := update m (getCroppedData edited) (latestTimestamp (this w)) in
  let shown := mkGesture (gestureID o) (name o) kept (prototype model) in
  deleteSample gesture sample w =
    markDirty
      (mkWorld
         (set_gestures (length (arrays (host w)))
            (set_models (<[Z.to_nat (indexOf gesture arr) := model]> (models (this w)))
               (this w)))
         (set_objects (<[gesture := shown]> (<[gesture := edited]> (objects (host w))))
            (set_arrays (arrays (host w) ++ [arr]) (host w)))).
Proof.
  unfold catalog. intros Harr Hin Ho Hm. cbn zeta.
  unfold deleteSample, slice, newArray, readArray, writeObject, readObject, updateModel.
  run. rewrite Harr. run.
  rewrite (lookup_push_old _ _ _ _ Harr). run.
  rewrite (indexOf_lookup gesture arr Hin). run. rewrite Ho. run.
  rewrite lookup_push_new. run.
  rewrite (indexOf_lookup gesture arr Hin). run. rewrite Ho. run.
  rewrite list_lookup_insert_eq by (by apply lookup_lt_Some in Ho). run.
  rewrite Hm. run. done.
Qed.

(** X1: for a gesture of the catalog whose index has a matcher,
    [deleteSample] returns; it removes the first occurrence of the sample
    from the gesture's samples, or the last sample when the gesture does not
    hold the sample ([indexOf] is -1 and [splice(-1, 1)] counts from the
    end); it updates the matcher at the index of the edited gesture with the
    cropped data that remain and the tick, shows that matcher's prototype,
    publishes a copy of the array and marks the store dirty. *)
Theorem deleteSample_removes (gesture : loc) (sample : Example) (w : World)
    (arr : list loc) (o : Gesture Example) (m : Core) :
  catalog w = Some arr →
  gesture ∈ arr →
  objects (host w) !! gesture = Some o →
  js_get (models (this w)) (indexOf gesture arr) = Some m →
  let w' := exec (deleteSample gesture sample) w in
  let kept := splice1 (indexOf sample (samples o)) (samples o) in
  let model :=
    update m (getCroppedData (mkGesture (gestureID o) (name o) kept (displayGesture o)))
      (latestTimestamp (this w)) in
  (deleteSample gesture sample w).1 = Normal tt ∧
  objects (host w') !! gesture
    = Some (mkGesture (gestureID o) (name o) kept (prototype model)) ∧
  (∀ before after, samples o = before ++ sample :: after → sample ∉ before →
                   kept = before ++ after) ∧
  (sample ∉ samples o → kept = take (length (samples o) - 1) (samples o)) ∧
  models (this w') = <[Z.to_nat (indexOf gesture arr) := model]> (models (this w)) ∧
  catalog w' = Some arr ∧
  gestures (this w') ≠ gestures (this w) ∧
  hasBeenModified (this w') = true.
Proof.
  intros Harr Hin Ho Hm. cbn zeta. unfold exec.
  rewrite (deleteSample_eq gesture sample w arr o m Harr Hin Ho Hm). cbn zeta.
  match goal with |- context [markDirty ?x] => set (w1 := x) end.
  destruct (markDirty_fields w1) as (Hr & Hd & Hg & Hms & Hc & _ & Ha & Hobj).
  cbn zeta in *. unfold exec, catalog in *.
  rewrite Hr, Hd, Hg, Hms, Ha, Hobj. subst w1. cbn.
  split; [done|]. split.
  { apply list_lookup_insert_eq. rewrite length_insert. by apply lookup_lt_Some in Ho. }
  split; [intros before after -> Hb; by apply splice1_first|].
  split; [apply splice1_absent|]. split; [done|].
  split; [apply lookup_push_new|]. split; [|done].
  apply lookup_lt_Some in Harr. lia.
Qed.

(** X2: [addSample] and [deleteSample] for a gesture that the catalog
    does not hold throw a [TypeError]; the store and the gesture objects are
    as before, and the published array too: only the copy made by [slice],
    which nothing references, was added to the heap. *)
Theorem edit_absent_gesture_throws (gesture : loc) (sample : Example) (w : World)
    (arr : list loc) :
  catalog w = Some arr →
  gesture ∉ arr →
  let discarded := mkWorld (this w) (set_arrays (arrays (host w) ++ [arr]) (host w)) in
  addSample gesture sample w = (Thrown TypeError, discarded) ∧
  deleteSample gesture sample w = (Thrown TypeError, discarded) ∧
  catalog discarded = Some arr.
Proof.
  unfold catalog. intros Harr Hin. cbn zeta.
  assert (Hget : js_get arr (indexOf gesture arr) = None).
  { apply indexOf_absent in Hin. by rewrite Hin. }
  split; [|split].
  - unfold addSample, slice, newArray, readArray. run. rewrite Harr. run.
    rewrite (lookup_push_old _ _ _ _ Harr). run. rewrite lookup_push_new. run.
    rewrite Hget. by run.
  - unfold deleteSample, slice, newArray, readArray. run. rewrite Harr. run.
    rewrite (lookup_push_old _ _ _ _ Harr). run. rewrite Hget. by run.
  - cbn. by apply lookup_push_old.
Qed.

(** X3: when the current index has no matcher, [addSample] for a gesture
    of the catalog throws a [TypeError] after it has put the sample in front
    of the gesture's samples: the gesture object, which the published array
    references, has the sample, but no copy is published, no matcher is
    updated and the store is not marked dirty. *)
Theorem addSample_without_matcher (gesture : loc) (newSample : Example) (w : World)
    (arr : list loc) (o : Gesture Example) :
  catalog w = Some arr →
  gesture ∈ arr →
  objects (host w) !! gesture = Some o →
  currentModel (this w) = None →
  let w' := exec (addSample gesture newSample) w in
  (addSample gesture newSample w).1 = Thrown TypeError ∧
  this w' = this w ∧
  catalog w' = Some arr ∧
  objects (host w') !! gesture
    = Some (mkGesture (gestureID o) (name o) (newSample :: samples o) (displayGesture o)) ∧
  timers (host w') = timers (host w).
Proof.
  unfold catalog, currentModel. intros Harr Hin Ho Hm. cbn zeta.
  unfold addSample, slice, newArray, readArray, writeObject, readObject, updateModel.
  run. rewrite Harr. run.
  rewrite (lookup_push_old _ _ _ _ Harr). run.
  rewrite lookup_push_new. run.
  rewrite (indexOf_lookup gesture arr Hin). run. rewrite Ho. run.
  rewrite list_lookup_insert_eq by (by apply lookup_lt_Some in Ho). run.
  rewrite Hm. run. rewrite (lookup_push_old _ _ _ _ Harr).
  repeat split; try done.
  apply list_lookup_insert_eq. by apply lookup_lt_Some in Ho.
Qed.


(** ** The catalog, continued *)

Lemma js_get_nat {A} (l : list A) (i : nat) : js_get l (Z.of_nat i) = l !! i.
Proof.
  unfold js_get. destruct (Z.ltb_spec (Z.of_nat i) 0); [lia|]. by rewrite Nat2Z.id.
Qed.

Lemma splice1_nonneg {A} (i : Z) (l : list A) :
  0 ≤ i → splice1 i l = delete (Z.to_nat i) l.
Proof.
  intros Hi. destruct (Z.lt_ge_cases i (Z.of_nat (length l))) as [Hlt|Hge].
  - by apply splice1_in_range.
  - unfold splice1. destruct (Z.ltb_spec i 0); [lia|].
    rewrite Z.min_r by lia. rewrite Nat2Z.id.
    rewrite !delete_take_drop, !take_ge, !drop_ge by lia. done.
Qed.

Lemma findIndex_none {A} (p : A → bool) (l : list A) :
  (∀ x, x ∈ l → p x = false) → findIndex p l = -1.
Proof.
  intros Hp. pose proof (findIndex_range p l) as Hr.
  pose proof (findIndex_found p l) as [Hf _].
  destruct (Z.eq_dec (findIndex p l) (-1)) as [|Hne]; [done|].
  destruct Hf as (x & Hx & Hpx); [lia|]. rewrite (Hp x Hx) in Hpx. done.
Qed.

Lemma findIndex_at {A} (p : A → bool) (l : list A) (i : nat) (x : A) :
  l !! i = Some x → p x = true →
  (∀ j y, (j < i)%nat → l !! j = Some y → p y = false) →
  findIndex p l = Z.of_nat i.
Proof.
  revert i. induction l as [|y l IH]; intros i Hi Hp Hbefore; [done|].
  destruct i as [|i]; cbn [findIndex].
  - cbn in Hi. injection Hi as ->. by rewrite Hp.
  - rewrite (Hbefore 0%nat y) by (lia || done).
    rewrite (IH i Hi Hp).
    + destruct (Z.ltb_spec (Z.of_nat i) 0); lia.
    + intros j z Hj Hz. apply (Hbefore (S j) z); [lia|done].
Qed.

Lemma mapM_readObject_Forall2 (arr : list loc) (gs : list (Gesture Example)) (w : World) :
  Forall2 (λ r g, objects (host w) !! r = Some g) arr gs →
  mapM readObject arr w = (Normal gs, w).
Proof.
  induction 1 as [|r g arr gs Hr _ IH]; [done|].
  cbn [mapM]. unfold bind at 1, readObject at 1. run. rewrite Hr. run.
  by rewrite IH.
Qed.

(** X4: [setCurrentGesture] makes current the first gesture of the
    catalog that has the id, and updates the matcher at that index with the
    cropped data of the gesture and the tick.  When no gesture has the id,
    the current index becomes -1 and a [TypeError] is thrown: the store is
    left with no current gesture and no current matcher. *)
Theorem setCurrentGesture_resolves (gestureId : Z) (w : World) (arr : list loc)
    (gs : list (Gesture Example)) :
  catalog w = Some arr →
  Forall2 (λ r g, objects (host w) !! r = Some g) arr gs →
  ((∀ g, g ∈ gs → gestureID g ≠ gestureId) →
     setCurrentGesture gestureId w =
       (Thrown TypeError, mkWorld (set_curGestureIndex (-1) (this w)) (host w))) ∧
  (∀ i o m,
     gs !! i = Some o → gestureID o = gestureId →
     (∀ j o', (j < i)%nat → gs !! j = Some o' → gestureID o' ≠ gestureId) →
     models (this w) !! i = Some m →
     setCurrentGesture gestureId w =
       (Normal tt,
        mkWorld
          (set_models
             (<[i := update m (getCroppedData o) (latestTimestamp (this w))]>
                (models (this w)))
             (set_curGestureIndex (Z.of_nat i) (this w)))
          (host w))).
Proof.
  unfold catalog. intros Harr Hgs. split.
  - intros Hnone.
    assert (Hidx : findIndex (λ g, gestureID g =? gestureId) gs = -1).
    { apply findIndex_none. intros g Hg. apply Z.eqb_neq. by apply Hnone. }
    unfold setCurrentGesture, readArray, currentModel. run. rewrite Harr. run.
    rewrite (mapM_readObject_Forall2 arr gs w Hgs). run. rewrite Hidx. by run.
  - intros i o m Hi Hid Hfirst Hm.
    assert (Hidx : findIndex (λ g, gestureID g =? gestureId) gs = Z.of_nat i).
    { apply (findIndex_at _ gs i o Hi); [by apply Z.eqb_eq|].
      intros j o' Hj Ho'. apply Z.eqb_neq. by apply (Hfirst j). }
    destruct (Forall2_lookup_r _ _ _ _ _ Hgs Hi) as (r & Hr & Ho).
    unfold setCurrentGesture, readArray, updateModel, currentModel.
    run. rewrite Harr. run.
    rewrite (mapM_readObject_Forall2 arr gs w Hgs). run. rewrite Hidx.
    rewrite !js_get_nat, Hm. run. rewrite Hr. run.
    unfold readObject. run. rewrite Ho. run.
    rewrite js_get_nat, Hm. run. by rewrite Nat2Z.id.
Qed.

(** X5: [deleteIfGestureEmpty] does nothing on an empty catalog and
    nothing when the current gesture has samples; it throws a [TypeError],
    with the state unchanged, when the catalog is not empty and the current
    index is outside it.  When the current gesture has no sample it
    publishes a copy of the array without that gesture and removes the
    matcher at the same index; it does not mark the store dirty, sets no
    timer and leaves the current index where it was. *)
Theorem deleteIfGestureEmpty_discards (w : World) (arr : list loc) :
  catalog w = Some arr →
  let cur := curGestureIndex (this w) in
  (arr = [] → deleteIfGestureEmpty w = (Normal tt, w)) ∧
  (arr ≠ [] → js_get arr cur = None → deleteIfGestureEmpty w = (Thrown TypeError, w)) ∧
  (∀ g o, js_get arr cur = Some g → objects (host w) !! g = Some o →
     (samples o ≠ [] → deleteIfGestureEmpty w = (Normal tt, w)) ∧
     (samples o = [] →
        deleteIfGestureEmpty w =
          (Normal tt,
           mkWorld
             (set_gestures (length (arrays (host w)))
                (set_models (delete (Z.to_nat cur) (models (this w))) (this w)))
             (set_arrays (arrays (host w) ++ [delete (Z.to_nat cur) arr]) (host w))))).
Proof.
  unfold catalog. intros Harr. cbn zeta. split; [|split].
  - intros ->. unfold deleteIfGestureEmpty, readArray. run. rewrite Harr. by run.
  - intros Hne Hget. unfold deleteIfGestureEmpty, readArray. run. rewrite Harr. run.
    destruct arr as [|r arr']; [done|]. cbn [length].
    destruct (Z.ltb_spec 0 (Z.of_nat (S (length arr')))); [|lia]. run.
    rewrite Hget. by run.
  - intros g o Hget Ho. pose proof (js_get_Some _ _ _ Hget) as Hcur.
    assert (Hpos : (0 <? Z.of_nat (length arr)) = true) by (apply Z.ltb_lt; lia).
    split; intros Hs.
    + unfold deleteIfGestureEmpty, readArray, readObject. run. rewrite Harr. run.
      rewrite Hpos. run. rewrite Hget. run. rewrite Ho. run.
      destruct (samples o); [done|]. cbn [length].
      destruct (Z.eqb_spec (Z.of_nat (S (length l))) 0); [lia|]. by run.
    + unfold deleteIfGestureEmpty, slice, newArray, readArray, writeArray, readObject.
      run. rewrite Harr. run. rewrite Hpos. run. rewrite Hget. run. rewrite Ho. run.
      rewrite Hs. run. change (Z.of_nat 0 =? 0) with true. run.
      rewrite Harr. run. rewrite lookup_push_new. run.
      rewrite insert_push_new. rewrite !splice1_nonneg by lia. done.
Qed.

(** X6: [deleteGesture] of a gesture of the catalog returns; it removes
    the first occurrence of the gesture from the gesture array and the
    matcher at the same index from the matcher array, and marks the store
    dirty; the gesture objects and the current index are left as they
    were. *)
Theorem deleteGesture_removes (gesture : loc) (w : World) (before after : list loc) :
  catalog w = Some (before ++ gesture :: after) →
  gesture ∉ before →
  let w' := exec (deleteGesture gesture) w in
  (deleteGesture gesture w).1 = Normal tt ∧
  catalog w' = Some (before ++ after) ∧
  models (this w') = delete (length before) (models (this w)) ∧
  hasBeenModified (this w') = true ∧
  curGestureIndex (this w') = curGestureIndex (this w) ∧
  objects (host w') = objects (host w).
Proof.
  intros Harr Hb. cbn zeta. unfold exec.
  rewrite (deleteGesture_eq gesture w _ Harr). cbn zeta.
  rewrite (splice1_first gesture before after Hb).
  rewrite (indexOf_first gesture before after Hb).
  destruct (Z.leb_spec 0 (Z.of_nat (length before))); [|lia].
  match goal with |- context [markDirty ?x] => set (w1 := x) end.
  destruct (markDirty_fields w1) as (Hr & Hd & Hg & Hms & Hc & _ & Ha & Hobj).
  cbn zeta in *. unfold exec, catalog in *.
  rewrite Hr, Hd, Hg, Hms, Hc, Ha, Hobj. subst w1. cbn.
  rewrite list_lookup_insert_eq by (by apply lookup_lt_Some in Harr).
  rewrite splice1_nonneg by lia. by rewrite Nat2Z.id.
Qed.

(** X7: when the catalog references allocated gestures only and the two
    arrays are aligned, [addGesture] followed by [deleteGesture] of the new
    gesture leaves the gesture array and the matcher array as they were;
    the store is dirty and the current index is the old length, past the
    end of both arrays, so that there is no current matcher. *)
Theorem add_then_delete_restores (w : World) (arr : list loc) :
  catalog w = Some arr →
  (∀ g, g ∈ arr → (g < length (objects (host w)))%nat) →
  length (models (this w)) = length arr →
  let added := length (objects (host w)) in
  let w' := exec (deleteGesture added) (exec addGesture w) in
  catalog w' = Some arr ∧
  models (this w') = models (this w) ∧
  hasBeenModified (this w') = true ∧
  curGestureIndex (this w') = Z.of_nat (length arr) ∧
  currentModel (this w') = None.
Proof.
  intros Harr Hall Hlen. cbn zeta.
  assert (Hfresh : length (objects (host w)) ∉ arr).
  { intros Hin. apply Hall in Hin. lia. }
  pose proof Harr as Hlt. apply lookup_lt_Some in Hlt.
  assert (Hadd : ∃ w1, exec addGesture w = w1 ∧
            catalog w1 = Some (arr ++ [length (objects (host w))]) ∧
            (∃ m, models (this w1) = models (this w) ++ [m]) ∧
            curGestureIndex (this w1) = Z.of_nat (length arr)).
  { eexists. split; [unfold exec; by rewrite (addGesture_eq w arr Harr)|].
    unfold catalog. cbn. rewrite list_lookup_insert_eq by done. by eauto. }
  destruct Hadd as (w1 & -> & Hc1 & (m & Hm1) & Hi1).
  unfold exec. rewrite (deleteGesture_eq _ w1 _ Hc1). cbn zeta.
  rewrite (splice1_first _ arr [] Hfresh), (indexOf_first _ arr [] Hfresh).
  destruct (Z.leb_spec 0 (Z.of_nat (length arr))); [|lia].
  match goal with |- context [markDirty ?x] => set (w2 := x) end.
  destruct (markDirty_fields w2) as (_ & Hd & Hg & Hms & Hc & _ & Ha & _).
  cbn zeta in *. unfold exec, catalog, currentModel in *.
  rewrite Hd, Hg, Hms, Hc, Ha. subst w2. cbn.
  rewrite list_lookup_insert_eq by (by apply lookup_lt_Some in Hc1).
  rewrite app_nil_r, splice1_nonneg by lia. rewrite Nat2Z.id.
  rewrite Hm1, Hi1, <- Hlen, delete_middle, app_nil_r.
  repeat split; try done.
  rewrite js_get_nat. by apply lookup_ge_None.
Qed.


(** ** Hydration, continued *)

Lemma mapM_parse_Gesture_throws (items : list JsValue) (st : Static) (w : World) :
  parseAll items (gestureStatic (host w)) = (None, st) →
  ∃ e extra st',
    mapM parse_Gesture items w =
      (Thrown e,
       mkWorld (this w)
         (set_objects (objects (host w) ++ extra) (set_gestureStatic st' (host w)))).
Proof.
  revert w st. induction items as [|v items IH]; intros w st Hall; [done|].
  cbn [parseAll mapM] in *.
  destruct (parseGesture v _) as [[g|] st1] eqn:Hv.
  - set (w1 := mkWorld (this w)
      (set_objects (objects (host w) ++ [g]) (set_gestureStatic st1 (host w)))).
    assert (Hg : parse_Gesture v w = (Normal (length (objects (host w))), w1)).
    { unfold parse_Gesture, newObject. run. rewrite Hv. by run. }
    destruct (parseAll items st1) as [[gs|] st2] eqn:Hrest; [done|].
    destruct (IH w1 st2 Hrest) as (e & extra & st' & Hm).
    exists e, (g :: extra), st'. unfold bind. rewrite Hg, Hm. cbn.
    by rewrite <- app_assoc.
  - exists TypeError, [], st1. unfold bind, parse_Gesture. run. rewrite Hv. run.
    by rewrite app_nil_r.
Qed.

(** X8: what [loadBlocks] does with a text it cannot hydrate from.  A
    text that is not JSON makes [JSON.parse] throw a [SyntaxError], and a
    text that parses to a truthy value that is no array makes the call of
    [map] throw a [TypeError]: in both cases the state is unchanged.  When
    a record of the array makes [Gesture.parseGesture] throw, the exception
    escapes before anything is assigned: the store and the arrays are
    unchanged, and the gesture objects of before are still there. *)
Theorem loadBlocks_errors (code text : string) (w : World) :
  text ≠ EmptyString →
  (JSON_parse text = None → loadBlocks code (Some text) w = (Thrown SyntaxError, w)) ∧
  (∀ v, JSON_parse text = Some v → truthy v = true → (∀ items, v ≠ JArr items) →
        loadBlocks code (Some text) w = (Thrown TypeError, w)) ∧
  (∀ items st,
     JSON_parse text = Some (JArr items) →
     parseAll items (gestureStatic (host w)) = (None, st) →
     ∃ e extra st',
       loadBlocks code (Some text) w =
         (Thrown e,
          mkWorld (this w)
            (set_objects (objects (host w) ++ extra) (set_gestureStatic st' (host w))))).
Proof.
  intros Htext. apply String.eqb_neq in Htext. split; [|split].
  - intros Hparse. unfold loadBlocks. by rewrite Htext, Hparse.
  - intros v Hparse Hv Harr. unfold loadBlocks. rewrite Htext, Hparse, Hv.
    destruct v; try done. by destruct (Harr items).
  - intros items st Hparse Hall. unfold loadBlocks. rewrite Htext, Hparse.
    cbn [truthy negb].
    destruct (mapM_parse_Gesture_throws items st w Hall) as (e & extra & st' & Hm).
    exists e, extra, st'. unfold mbind, Eff_bind. unfold bind at 1. by rewrite Hm.
Qed.

(** ** Saving *)

(** X9: [saveBlocksNow] does nothing on a store that is not dirty.  On a
    dirty store whose published array references the gestures [gs], it
    returns; it sends one [extwritecode] request whose body holds the
    namespace generated from the blocks of the running matchers, in the
    order of the matcher array, and the serialisation of [gs]; it records
    the request as pending, clears the dirty flag and publishes a copy of
    the array.  The message is posted only when the window has a parent. *)
Theorem saveBlocksNow_flush (w : World) :
  (hasBeenModified (this w) = false → saveBlocksNow w = (Normal tt, w)) ∧
  (∀ arr gs,
     hasBeenModified (this w) = true →
     catalog w = Some arr →
     Forall2 (λ r g, objects (host w) !! r = Some g) arr gs →
     let id := Math_random (randomCount (host w)) in
     let code :=
       generateNamespace (generateBlock <$> filter (λ m, isRunning m) (models (this w))) in
     let msg :=
       mkEnvelope "pxtpkgext" "extwritecode" (extId (this w)) true id
         (Some (mkWriteBody code (JSON_stringify gs))) in
     saveBlocksNow w =
       (Normal tt,
        mkWorld
          (set_gestures (length (arrays (host w)))
             (set_hasBeenModified false
                (set_idToType (<[id := "extwritecode"]> (idToType (this w))) (this w))))
          (set_posted (if inFrame (host w) then push msg (posted (host w))
                       else posted (host w))
             (set_randomCount (S (randomCount (host w)))
                (set_arrays (arrays (host w) ++ [arr]) (host w)))))).
Proof.
  split.
  - intros Hd. unfold saveBlocksNow. run_sync. by rewrite Hd.
  - unfold catalog. intros arr gs Hd Harr Hgs. cbn zeta.
    unfold saveBlocksNow, slice, newArray, readArray. run_sync. rewrite Hd. run_sync.
    rewrite Harr. run_sync. rewrite (lookup_push_old _ _ _ _ Harr). run_sync.
    match goal with |- context [mapM readObject arr ?x] =>
      rewrite (mapM_readObject_Forall2 arr gs x) by exact Hgs
    end.
    run_sync. rewrite sendRequest_eq. run_sync. done.
Qed.

Lemma advance_fires_clean (dt : nat) (w : World) (id : nat) (due : Z) :
  hasBeenModified (this w) = false →
  timers (host w) = [(id, due)] →
  due ≤ clock (host w) + Z.of_nat dt →
  advance dt w =
    mkWorld (set_timeout None (this w))
      (set_clock (clock (host w) + Z.of_nat dt) (set_timers [] (host w))).
Proof.
  intros Hd Ht Hdue. unfold advance. rewrite Ht.
  rewrite filter_singleton_True by (exact [] || (cbn; lia)).
  cbn [foldl]. unfold fireTimer. rewrite Ht.
  rewrite bool_decide_eq_true_2 by left.
  unfold later, debounce_later, saveBlocksNow. run_sync. rewrite Ht, Hd. run_sync.
  by rewrite decide_False by (intros Hne; by apply Hne).
Qed.

(** X10: [saveBlocks], the debounced function itself, restarts the delay
    at every call: when the pending timers are none or the one it
    remembers, after a call the one pending timer is due 2000 ms after that
    call, whatever was pending before.  It does not touch the dirty flag,
    so that on a store that is not dirty the timer fires without posting
    anything. *)
Theorem saveBlocks_restarts (w : World) :
  single_timer w →
  let id := S (timerCount (host w)) in
  let w' := exec saveBlocks w in
  saveBlocks w =
    (Normal tt,
     mkWorld (set_timeout (Some id) (this w))
       (set_timerCount id (set_timers [(id, clock (host w) + 2000)] (host w)))) ∧
  single_timer w' ∧
  (hasBeenModified (this w) = false →
   ∀ dt, posted (host (advance dt w')) = posted (host w) ∧
         hasBeenModified (this (advance dt w')) = false).
Proof.
  intros Hsingle. cbn zeta.
  assert (Heq : saveBlocks w =
    (Normal tt,
     mkWorld (set_timeout (Some (S (timerCount (host w)))) (this w))
       (set_timerCount (S (timerCount (host w)))
          (set_timers [(S (timerCount (host w)), clock (host w) + 2000)] (host w))))).
  { unfold saveBlocks, debounce, clearTimeout, setTimeout. run.
    destruct Hsingle as [Ht|(id0 & due0 & Ht & Hto)].
    - destruct (timeout (this w)); run; by rewrite Ht.
    - rewrite Hto. run. rewrite Ht. cbn.
      by rewrite decide_False by (intros Hne; by apply Hne). }
  unfold exec. rewrite Heq. cbn [snd]. split; [done|]. split.
  - right. by eexists _, _.
  - intros Hd dt.
    match goal with |- context [advance dt ?x] => set (w1 := x) end.
    destruct (Z.lt_ge_cases (clock (host w1) + Z.of_nat dt) (clock (host w) + 2000)).
    + by rewrite (advance_quiet dt w1 _ _ eq_refl).
    + rewrite (advance_fires_clean dt w1 _ _ Hd eq_refl) by lia. done.
Qed.

(** ** Host messages, continued *)

(** X11: a request and its response.  After [sendRequest] with an id
    that was not pending, the id is pending with the action; the response
    with that id removes it again, so that the pending requests are those of
    before the request.  The response to an action other than [extinit] and
    [extreadcode] (such as the write and the data-stream requests) does
    nothing else; the response to [extreadcode] hydrates from its [resp],
    and throws a [TypeError] when it has none, the request being consumed
    all the same; the response to [extinit] sends the two follow-up
    requests. *)
Theorem request_response_round_trip (action : string) (body : option WriteBody)
    (data : ExtensionMessage) (w : World) :
  nonempty (msg_event data) = false →
  msg_id data = Math_random (randomCount (host w)) →
  idToType (this w) !! msg_id data = None →
  let sent := exec (sendRequest action body) w in
  let answered := mkWorld (this w) (host sent) in
  idToType (this sent) !! msg_id data = Some action ∧
  (action ≠ "extinit" → action ≠ "extreadcode" →
     receiveMessage data sent = (Normal tt, answered)) ∧
  (action = "extreadcode" →
     (∀ code json, msg_resp data = Some (code, json) →
        receiveMessage data sent = loadBlocks code json answered) ∧
     (msg_resp data = None → receiveMessage data sent = (Thrown TypeError, answered))) ∧
  (action = "extinit" →
     receiveMessage data sent =
       (sendRequest "extdatastream" None;; sendRequest "extreadcode" None) answered).
Proof.
  intros Hev Hid Hfresh. cbn zeta. unfold exec. rewrite sendRequest_eq. cbn zeta.
  cbn [snd this host idToType set_idToType]. rewrite <- Hid.
  set (h := set_posted _ _).
  assert (Hback : mkWorld
            (set_idToType
               (delete (msg_id data) (<[msg_id data := action]> (idToType (this w))))
               (set_idToType (<[msg_id data := action]> (idToType (this w))) (this w))) h
          = mkWorld (this w) h).
  { rewrite delete_insert_eq, delete_id by done. by destruct w as [[] ?]. }
  split; [apply lookup_insert_eq|]. split; [|split].
  - intros Hne1 Hne2. unfold receiveMessage. rewrite Hev. run_sync.
    rewrite lookup_insert_eq.
    rewrite !bool_decide_eq_false_2 by congruence. by rewrite Hback.
  - intros ->. split.
    + intros code json Hresp. unfold receiveMessage. rewrite Hev. run_sync.
      rewrite lookup_insert_eq. rewrite bool_decide_eq_false_2 by done.
      rewrite bool_decide_eq_true_2 by done. rewrite Hresp. run_sync. by rewrite Hback.
    + intros Hresp. unfold receiveMessage. rewrite Hev. run_sync.
      rewrite lookup_insert_eq. rewrite bool_decide_eq_false_2 by done.
      rewrite bool_decide_eq_true_2 by done. rewrite Hresp. run_sync. by rewrite Hback.
  - intros ->. unfold receiveMessage. rewrite Hev. run_sync.
    rewrite lookup_insert_eq. rewrite bool_decide_eq_true_2 by done.
    by rewrite Hback.
Qed.


(** X12: the handshake.  The new store has one pending request,
    [extinit]; its response leaves two pending requests, [extdatastream]
    and [extreadcode], and the catalog empty.  In a window with a parent
    the three requests were posted in this order, each with the extension
    id taken from the hash; in a window without parent nothing is posted,
    but the requests are recorded as pending all the same. *)
Theorem init_handshake (hash : string) (st : Static) (framed : bool)
    (data : ExtensionMessage) :
  nonempty (msg_event data) = false →
  msg_id data = Math_random 0 →
  let w0 : World := newStore hash st framed in
  let w1 := exec (receiveMessage data) w0 in
  idToType (this w0) = <[Math_random 0 := "extinit"]> ∅ ∧
  (receiveMessage data w0).1 = Normal tt ∧
  idToType (this w1)
    = <[Math_random 2 := "extreadcode"]> (<[Math_random 1 := "extdatastream"]> ∅) ∧
  env_action <$> posted (host w1)
    = (if framed then ["extinit"; "extdatastream"; "extreadcode"] else []) ∧
  (∀ msg, msg ∈ posted (host w1) →
          env_extId msg = String.substring 1 (String.length hash - 1) hash ∧
          env_type msg = "pxtpkgext" ∧ env_response msg = true) ∧
  catalog w1 = Some [] ∧ models (this w1) = [].
Proof.
  intros Hev Hid. cbn zeta.
  assert (Hnew : (newStore hash st framed : World) =
    mkWorld
      (mkStore 0%nat None false [] 0 [] [] (<[Math_random 0 := "extinit"]> ∅)
         (String.substring 1 (String.length hash - 1) hash) 0 None 0%float 0%float 0%float)
      (mkHost [[]] [] st 0 [] 0%nat
         (if framed
          then [mkEnvelope "pxtpkgext" "extinit"
                  (String.substring 1 (String.length hash - 1) hash) true
                  (Math_random 0) None]
          else [])
         framed 1%nat)).
  { unfold newStore, exec, mbind, Eff_bind, bind, modThis, modify.
    rewrite sendRequest_eq. run_sync. by destruct framed. }
  rewrite Hnew. split; [done|].
  unfold receiveMessage, exec. rewrite Hev. run_sync. rewrite Hid.
  rewrite lookup_insert_eq. rewrite bool_decide_eq_true_2 by done.
  rewrite sendRequest_eq. run_sync. rewrite sendRequest_eq. run_sync.
  rewrite delete_insert_eq, delete_empty. unfold catalog.
  split; [done|]. split; [done|].
  destruct framed; cbn -[insert delete lookup]; (split; [done|]); (split; [|done]).
  - intros msg Hmsg. unfold push in Hmsg. cbn in Hmsg.
    repeat (apply elem_of_cons in Hmsg as [->|Hmsg]; [done|]).
    by apply elem_of_nil in Hmsg.
  - intros msg Hmsg. by apply elem_of_nil in Hmsg.
Qed.

(** ** What the sensor stream leaves alone *)

Lemma serialHandler_frame (data : SensorData) (w : World) :
  let w' := exec (serialHandler data) w in
  outside_stream w' = outside_stream w ∧
  length (models (this w')) = length (models (this w)) ∧
  (∃ extra, matches (this w') = matches (this w) ++ extra ∧ (length extra ≤ 1)%nat) ∧
  ((currentModel (this w) = None ∨ ∃ m, currentModel (this w) = Some m ∧ isRunning m = false) →
   models (this w') = models (this w) ∧ matches (this w') = matches (this w)).
Proof.
  cbn zeta. unfold serialHandler, outside_stream. run.
  assert (Hnil : ∀ l : list Match, ∃ extra, l = l ++ extra ∧ (length extra ≤ 1)%nat).
  { intros l. exists []. rewrite app_nil_r. split; [done|cbn; lia]. }
  destruct (READING_HISTORY_LIMIT <? _); run;
    unfold currentModel; run;
    (destruct (js_get _ _) as [m|]; run; [|by eauto]);
    (destruct (isRunning m) eqn:Hrun; run; [|by eauto]);
    (destruct (feed m _) as [m' [found|]]; run);
    rewrite length_insert;
    (split; [done|]; split; [done|]; split;
     [first [by apply Hnil | by exists [found]]|]);
    (intros [?|(m0 & Hm0 & Hr0)]; [done|]; congruence).
Qed.

(** X13: sensor frames never touch the catalog or the host protocol.
    Whatever frames arrive, the published array, the dirty flag, the
    current index, the pending requests and the window (timers, heap,
    posted messages) are as before, and the matcher array has the same
    length; the matches are those of before followed by at most one new
    match per frame, none being ever removed.  When the current index has no
    matcher, no matcher is fed and no match is added. *)
Theorem frames_leave_catalog (frames : list SensorData) (w : World) :
  let w' := feedAll frames w in
  outside_stream w' = outside_stream w ∧
  length (models (this w')) = length (models (this w)) ∧
  (∃ extra, matches (this w') = matches (this w) ++ extra ∧
            (length extra ≤ length frames)%nat) ∧
  (currentModel (this w) = None →
   models (this w') = models (this w) ∧ matches (this w') = matches (this w)).
Proof.
  cbn zeta. revert w. induction frames as [|data frames IH]; intros w.
  { cbn. repeat split; try done. exists []. by rewrite app_nil_r. }
  rewrite feedAll_cons.
  destruct (serialHandler_frame data w) as (Ho & Hl & (e1 & He1 & Hn1) & Hnone).
  cbn zeta in *. set (w1 := exec (serialHandler data) w) in *.
  destruct (IH w1) as (Ho' & Hl' & (e2 & He2 & Hn2) & Hnone').
  split; [congruence|]. split; [congruence|]. split.
  - exists (e1 ++ e2). rewrite He2, He1, <- app_assoc. split; [done|].
    rewrite length_app. cbn [length]. lia.
  - intros Hcur. destruct Hnone as [Hm Hmt]; [by left|].
    assert (Hcur1 : currentModel (this w1) = None).
    { unfold currentModel, outside_stream in *. rewrite Hm.
      by replace (curGestureIndex (this w1)) with (curGestureIndex (this w))
        by congruence. }
    destruct (Hnone' Hcur1). split; congruence.
Qed.

(** X14: the last reading.  After one frame or more, from a buffer of at
    most 30 readings, [currentOrientation] is the conditioned value of the
    last frame. *)
Theorem currentOrientation_latest (frames : list SensorData) (w : World) :
  (length (readings (this w)) ≤ 30)%nat →
  frames ≠ [] →
  let s := this w in
  currentOrientation (this (feedAll frames w))
    = last (smoothed (filterX s) (filterY s) (filterZ s) frames).
Proof.
  intros Hlen Hne. cbn zeta.
  destruct (feedAll_window frames w Hlen) as [Hr _]. cbn zeta in Hr.
  set (pushed := smoothed _ _ _ frames) in *.
  assert (Hp : length pushed = length frames) by apply smoothed_length.
  assert (Hpos : (0 < length frames)%nat) by (destruct frames; [done|cbn; lia]).
  unfold currentOrientation. rewrite Hr. set (all := readings (this w) ++ pushed).
  assert (Hall : length all = (length (readings (this w)) + length pushed)%nat)
    by apply length_app.
  rewrite length_drop.
  destruct (Z.ltb_spec 0 (Z.of_nat (length all - (length all - 30)))); [|lia].
  replace (Z.of_nat (length all - (length all - 30)) - 1)
    with (Z.of_nat (length all - (length all - 30) - 1)) by lia.
  rewrite js_get_nat, lookup_drop.
  replace (length all - 30 + (length all - (length all - 30) - 1))%nat
    with (pred (length all)) by lia.
  rewrite <- last_lookup. unfold all. rewrite last_app.
  destruct (last pushed) eqn:Hlast; [done|].
  apply last_None in Hlast. rewrite Hlast in Hp. cbn in Hp. lia.
Qed.


Arguments serialHandler : simpl never.

Lemma onSerialData_frame (strBuf : string) (w : World) :
  let w' := exec (onSerialData strBuf) w in
  (onSerialData strBuf w).1 = Normal tt ∧
  host w' = host w ∧
  gestures (this w') = gestures (this w) ∧
  hasBeenModified (this w') = hasBeenModified (this w) ∧
  idToType (this w') = idToType (this w) ∧
  connected (this w') = Some true.
Proof.
  cbn zeta. unfold onSerialData. run_sync.
  destruct (acc (parseString strBuf)); run_sync; [|done].
  destruct (serialHandler_stream (parseString strBuf) w) as (Hr & _).
  destruct (serialHandler_frame (parseString strBuf) w) as (Ho & _).
  cbn zeta in *. unfold exec, outside_stream in *.
  destruct (serialHandler (parseString strBuf) w) as [c w1]. cbn in *. subst c.
  run_sync. injection Ho as -> _ -> -> _ _ _ ->. done.
Qed.

(** X15: event messages never consume a pending request and never touch
    the catalog.  After a message that carries an event name, whatever it
    is, every id that was pending is still pending, and the published
    array, the heap, the dirty flag and the timers are as before.  Console
    data that come from the simulator change nothing at all, and a console
    event without body throws a [TypeError] with the state unchanged. *)
Theorem events_keep_pending (data : ExtensionMessage) (w : World) :
  nonempty (msg_event data) = true →
  let w' := exec (receiveMessage data) w in
  (∀ id, is_Some (idToType (this w) !! id) → is_Some (idToType (this w') !! id)) ∧
  gestures (this w') = gestures (this w) ∧
  arrays (host w') = arrays (host w) ∧
  objects (host w') = objects (host w) ∧
  hasBeenModified (this w') = hasBeenModified (this w) ∧
  timers (host w') = timers (host w) ∧
  (msg_event data = Some "extconsole" →
     (∀ strBuf, msg_cons_body data = Some (true, strBuf) →
                receiveMessage data w = (Normal tt, w)) ∧
     (msg_cons_body data = None → receiveMessage data w = (Thrown TypeError, w))).
Proof.
  intros Hev. cbn zeta. unfold receiveMessage. rewrite Hev.
  destruct (String.eqb_spec (default EmptyString (msg_event data)) "extconsole") as [He|He].
  { run_sync. destruct (msg_cons_body data) as [[sim strBuf]|]; run_sync;
      [|repeat split; try done; try (by intros ? [=]); try (by intros [=])].
    destruct sim.
    - repeat split; try done; try (by intros ? [=]); try (by intros [=]).
    - destruct (onSerialData_frame strBuf w) as (_ & Hh & Hg & Hd & Hi & _).
      cbn zeta in *. unfold exec in *. rewrite Hh, Hg, Hd, Hi.
      repeat split; try done; try (by intros ? [=]); try (by intros [=]). }
  assert (Hnot : msg_event data ≠ Some "extconsole").
  { intros Hc. rewrite Hc in He. by apply He. }
  destruct (String.eqb _ "extshown").
  { run_sync. rewrite sendRequest_eq. run_sync. rewrite sendRequest_eq. run_sync.
    repeat split; try done.
    intros id Hid.
    apply lookup_insert_is_Some'. right. apply lookup_insert_is_Some'. by right. }
  destruct (String.eqb _ "exthidden"); run_sync; repeat split; done.
Qed.

(** ** What the catalog operations leave alone *)

Lemma loadBlocks_outside (code : string) (json : option string) (w : World) :
  outside_catalog (exec (loadBlocks code json) w) = outside_catalog w.
Proof.
  destruct json as [text|]; [|done].
  destruct (String.eqb_spec text EmptyString) as [->|Hne]; [done|].
  pose proof Hne as Htext. apply String.eqb_neq in Htext.
  destruct (JSON_parse text) as [v|] eqn:Hparse;
    [|unfold loadBlocks, exec; by rewrite Htext, Hparse].
  destruct (truthy v) eqn:Hv;
    [|unfold loadBlocks, exec; by rewrite Htext, Hparse, Hv].
  destruct v as [| | | |items|];
    try (unfold loadBlocks, exec; by rewrite Htext, Hparse, Hv).
  destruct (parseAll items (gestureStatic (host w))) as [[gs|] st] eqn:Hall.
  - unfold exec.
    by rewrite (loadBlocks_array code text items gs st w Hne Hparse Hall).
  - destruct (loadBlocks_rejected code text items st w Hne Hparse Hall)
      as (e & objs & st' & Hl).
    unfold exec. by rewrite Hl.
Qed.

(** Case analysis on the lookups that decide whether a statement throws,
    for properties that hold on every path. *)
Ltac paths :=
  repeat (run; rewrite ?markDirty_eq;
          match goal with
          | |- context [match ?x with Some _ => _ | None => _ end] => destruct x
          | |- context [if ?b then _ else _] => destruct b
          end);
  run.

Lemma perform_outside (op : CatalogOp) (w : World) :
  outside_catalog (exec (perform op) w) = outside_catalog w.
Proof.
  destruct op as [|g| |code json|g x|g x|gid]; cbn [perform].
  - unfold addGesture, construct_Gesture, newObject, readArray, writeArray, readObject,
      outside_catalog.
    run. destruct (newGesture _) as [gesture st]. by paths.
  - unfold deleteGesture, readArray, writeArray, outside_catalog. by paths.
  - unfold deleteIfGestureEmpty, slice, newArray, readArray, writeArray, readObject,
      outside_catalog. by paths.
  - apply loadBlocks_outside.
  - unfold addSample, slice, newArray, readArray, writeObject, readObject, updateModel,
      outside_catalog. by paths.
  - unfold deleteSample, slice, newArray, readArray, writeObject, readObject, updateModel,
      outside_catalog. by paths.
  - unfold setCurrentGesture, readArray, updateModel, currentModel, outside_catalog. run.
    destruct (arrays (host w) !! gestures (this w)) as [arr|]; run; [|done].
    pose proof (mapM_state readObject arr w readObject_state) as Hst.
    destruct (mapM readObject arr w) as [[gs|e] w1]; cbn in Hst; subst w1; run; [|done].
    unfold readObject. by paths.
Qed.

(** X16: the catalog operations never touch the sensor stream or the
    host protocol.  After any sequence of [addGesture], [deleteGesture],
    [deleteIfGestureEmpty], [loadBlocks], [addSample], [deleteSample] and
    [setCurrentGesture], whether they return or throw, the readings, the
    tick, the matches and the filters are as before, and so are the pending
    requests, the connection flag and the messages posted: an edit sends
    nothing to the host by itself. *)
Theorem catalog_leaves_stream (ops : list CatalogOp) (w : World) :
  outside_catalog (performAll ops w) = outside_catalog w.
Proof.
  revert w. induction ops as [|op ops IH]; intros w; [done|].
  change (performAll (op :: ops) w) with (performAll ops (exec (perform op) w)).
  by rewrite IH, perform_outside.
Qed.


(** ** The sensor line *)

Lemma parseLoop_skip (fuel : nat) (toks : list string) (i : nat) (result : SensorData) :
  (∀ j tok, (i ≤ j)%nat → toks !! j = Some tok → tok ≠ "A") →
  parseLoop fuel toks i result = result.
Proof.
  revert i. induction fuel as [|fuel IH]; intros i Hno; [done|].
  cbn [parseLoop]. destruct (toks !! i) as [tok|] eqn:Htok; [|done].
  assert (Hne : tok ≠ "A") by (by apply (Hno i)).
  apply String.eqb_neq in Hne. rewrite Hne.
  apply IH. intros j tok' Hj. apply Hno. lia.
Qed.

Lemma parseLoop_scan (n fuel : nat) (toks : list string) (i : nat) (result : SensorData) :
  (∀ j tok, (i ≤ j < i + n)%nat → toks !! j = Some tok → tok ≠ "A") →
  (i + n ≤ length toks)%nat →
  parseLoop (n + fuel) toks i result = parseLoop fuel toks (i + n) result.
Proof.
  revert i. induction n as [|n IH]; intros i Hno Hlen.
  - by rewrite Nat.add_0_r.
  - cbn [Nat.add parseLoop].
    destruct (lookup_lt_is_Some_2 toks i) as [tok Htok]; [lia|]. rewrite Htok.
    assert (Hne : tok ≠ "A") by (apply (Hno i); [lia|done]).
    apply String.eqb_neq in Hne. rewrite Hne.
    rewrite IH; [f_equal; lia| |lia].
    intros j tok' Hj. apply Hno. lia.
Qed.

(** X17: what [parseString] reads from a line.  A line without the
    marker token [A] yields no sample.  A line with one marker that counts
    yields the sample made of [parseInt] of the three tokens that follow
    it, whatever precedes the marker; a token that is missing at the end of
    the line is read as [parseInt(undefined)], and the three tokens after
    the marker are never taken for markers themselves. *)
Theorem parseString_marker (strBuf : string) :
  ((∀ tok, tok ∈ split Ascii.Space strBuf → tok ≠ "A") →
     parseString strBuf = mkSensorData false (mkReading 0 0 0)) ∧
  (∀ pre rest,
     split Ascii.Space strBuf = pre ++ "A" :: rest →
     (∀ tok, tok ∈ pre → tok ≠ "A") →
     (∀ tok, tok ∈ drop 3 rest → tok ≠ "A") →
     parseString strBuf =
       mkSensorData true
         (mkReading (parseInt (rest !! 0%nat)) (parseInt (rest !! 1%nat))
                    (parseInt (rest !! 2%nat)))).
Proof.
  unfold parseString. split.
  - intros Hno. apply parseLoop_skip. intros j tok _ Htok.
    apply Hno. apply list_elem_of_lookup. eauto.
  - intros pre rest -> Hpre Hrest.
    rewrite length_app. cbn [length].
    replace (length pre + S (length rest))%nat
      with (length pre + (S (length rest)))%nat by lia.
    rewrite parseLoop_scan.
    + cbn [Nat.add parseLoop]. rewrite list_lookup_middle by done.
      change (String.eqb "A" "A") with true. cbn iota.
      rewrite parseLoop_skip.
      * f_equal. f_equal.
        -- rewrite lookup_app_r by lia.
           by replace (length pre + 1 - length pre)%nat with 1%nat by lia.
        -- rewrite lookup_app_r by lia.
           by replace (length pre + 2 - length pre)%nat with 2%nat by lia.
        -- rewrite lookup_app_r by lia.
           by replace (length pre + 3 - length pre)%nat with 3%nat by lia.
      * intros j tok Hj Htok. apply Hrest.
        rewrite lookup_app_r in Htok by lia.
        replace (j - length pre)%nat with (S (j - length pre - 1)) in Htok by lia.
        cbn in Htok. apply list_elem_of_lookup.
        exists (j - length pre - 1 - 3)%nat. rewrite lookup_drop. rewrite <- Htok.
        f_equal. lia.
    + intros j tok Hj Htok. apply Hpre.
      rewrite lookup_app_l in Htok by lia. apply list_elem_of_lookup. eauto.
    + rewrite length_app. cbn. lia.
Qed.

(** ** The references of the catalog *)

Lemma perform_objects (op : CatalogOp) (w : World) :
  (length (objects (host w)) ≤ length (objects (host (exec (perform op) w))))%nat.
Proof.
  destruct op as [|g| |code json|g x|g x|gid]; cbn [perform].
  - unfold addGesture, construct_Gesture, newObject, readArray, writeArray, readObject.
    run. destruct (newGesture _) as [gesture st].
    paths; rewrite ?length_app; cbn [length]; lia.
  - unfold deleteGesture, readArray, writeArray. paths; lia.
  - unfold deleteIfGestureEmpty, slice, newArray, readArray, writeArray, readObject.
    paths; lia.
  - destruct json as [text|]; [|done].
    destruct (String.eqb_spec text EmptyString) as [->|Hne]; [done|].
    pose proof Hne as Htext. apply String.eqb_neq in Htext.
    destruct (JSON_parse text) as [v|] eqn:Hparse;
      [|unfold loadBlocks, exec; by rewrite Htext, Hparse].
    destruct (truthy v) eqn:Hv;
      [|unfold loadBlocks, exec; by rewrite Htext, Hparse, Hv].
    destruct v as [| | | |items|];
      try (unfold loadBlocks, exec; by rewrite Htext, Hparse, Hv).
    destruct (parseAll items (gestureStatic (host w))) as [[gs|] st] eqn:Hall.
    + unfold exec.
      rewrite (loadBlocks_array code text items gs st w Hne Hparse Hall). cbn.
      rewrite length_app. lia.
    + destruct (mapM_parse_Gesture_throws items st w Hall) as (e & extra & st' & Hm).
      unfold loadBlocks, exec. rewrite Htext, Hparse. cbn [truthy negb].
      unfold mbind, Eff_bind. unfold bind at 1. rewrite Hm. cbn.
      rewrite length_app. lia.
  - unfold addSample, slice, newArray, readArray, writeObject, readObject, updateModel.
    paths; rewrite ?length_insert; lia.
  - unfold deleteSample, slice, newArray, readArray, writeObject, readObject, updateModel.
    paths; rewrite ?length_insert; lia.
  - unfold setCurrentGesture, readArray, updateModel, currentModel. run.
    destruct (arrays (host w) !! gestures (this w)) as [arr|]; run; [|done].
    pose proof (mapM_state readObject arr w readObject_state) as Hst.
    destruct (mapM readObject arr w) as [[gs|e] w1]; cbn in Hst; subst w1; run; [|done].
    unfold readObject. paths; lia.
Qed.

Lemma perform_well_formed (op : CatalogOp) (w : World) :
  well_formed w → well_formed (exec (perform op) w).
Proof.
  intros (arr & Harr & Hnd & Hall).
  pose proof (perform_objects op w) as Hobj.
  assert (Hkeep : ∀ w' : World, catalog w' = Some arr →
            (length (objects (host w)) ≤ length (objects (host w')))%nat →
            well_formed w').
  { intros w' Hc Hl. exists arr. split; [done|]. split; [done|].
    intros g Hg. apply Hall in Hg. lia. }
  assert (Hdel : ∀ (w' : World) i, catalog w' = Some (delete i arr) →
            (length (objects (host w)) ≤ length (objects (host w')))%nat →
            well_formed w').
  { intros w' i Hc Hl. exists (delete i arr). split; [done|]. split.
    - apply (sublist_NoDup _ arr Hnd). apply sublist_delete.
    - intros g Hg. apply list_elem_of_delete_inv in Hg. apply Hall in Hg. lia. }
  pose proof Harr as Hlt. unfold catalog in Hlt. apply lookup_lt_Some in Hlt.
  assert (Hw : well_formed w) by (by apply Hkeep).
  destruct op as [|g| |code json|g x|g x|gid]; cbn [perform] in *.
  - unfold exec. rewrite (addGesture_eq w arr Harr). cbn zeta. unfold well_formed, catalog.
    cbn. rewrite list_lookup_insert_eq by done.
    eexists. split; [done|]. unfold push. split.
    + apply NoDup_app. split; [done|]. split; [|apply NoDup_singleton].
      intros r Hr Hr'. apply list_elem_of_singleton in Hr'. apply Hall in Hr. lia.
    + intros r Hr. rewrite length_app. cbn [length].
      apply elem_of_app in Hr as [Hr|Hr]; [apply Hall in Hr; lia|].
      apply list_elem_of_singleton in Hr. lia.
  - destruct (decide (g ∈ arr)) as [Hin|Hin].
    + pose proof (indexOf_lookup g arr Hin) as Hi. apply js_get_Some in Hi.
      apply (Hdel _ (Z.to_nat (indexOf g arr))); [|done].
      unfold exec. rewrite (deleteGesture_eq g w arr Harr). cbn zeta.
      destruct (Z.leb_spec 0 (indexOf g arr)); [|lia].
      match goal with |- context [markDirty ?x] => set (w1 := x) end.
      destruct (markDirty_fields w1) as (_ & _ & Hg & _ & _ & _ & Ha & _).
      cbn zeta in *. unfold exec, catalog in *. rewrite Hg, Ha. subst w1. cbn.
      rewrite list_lookup_insert_eq by done. by rewrite splice1_in_range.
    + apply Hkeep; [|done]. unfold exec.
      rewrite (deleteGesture_eq g w arr Harr). cbn zeta.
      apply indexOf_absent in Hin. by rewrite Hin.
  - destruct (deleteIfGestureEmpty_catalog w arr Harr) as (_ & [Hsame|(Hi & _ & Hc & _)]).
    + by rewrite Hsame.
    + cbn zeta in *. apply (Hdel _ (Z.to_nat (curGestureIndex (this w)))); [|done].
      rewrite Hc. by rewrite splice1_in_range.
  - destruct json as [text|]; [|exact Hw].
    destruct (String.eqb_spec text EmptyString) as [->|Hne]; [exact Hw|].
    pose proof Hne as Htext. apply String.eqb_neq in Htext.
    destruct (JSON_parse text) as [v|] eqn:Hparse;
      [|unfold loadBlocks, exec; rewrite Htext, Hparse; exact Hw].
    destruct (truthy v) eqn:Hv;
      [|unfold loadBlocks, exec; rewrite Htext, Hparse, Hv; exact Hw].
    destruct v as [| | | |items|];
      try (unfold loadBlocks, exec; rewrite Htext, Hparse, Hv; exact Hw).
    destruct (parseAll items (gestureStatic (host w))) as [[gs|] st] eqn:Hall'.
    + unfold exec.
      rewrite (loadBlocks_array code text items gs st w Hne Hparse Hall').
      unfold well_formed, catalog. cbn. rewrite lookup_push_new.
      eexists. split; [done|]. split; [apply NoDup_seq|].
      intros r Hr. apply elem_of_seq in Hr. rewrite length_app. lia.
    + apply Hkeep; [|done].
      destruct (loadBlocks_rejected code text items st w Hne Hparse Hall')
        as (e & objs & st' & Hl).
      unfold exec. by rewrite Hl.
  - apply Hkeep; [|done]. by destruct (addSample_catalog g x w arr Harr) as (_ & ? & _).
  - apply Hkeep; [|done]. by destruct (deleteSample_catalog g x w arr Harr) as (_ & ? & _).
  - apply Hkeep; [|done].
    destruct (setCurrentGesture_catalog gid w) as (Ha & Hg & _). cbn zeta in *.
    unfold catalog in *. by rewrite Ha, Hg.
Qed.

(** X18: the references of the catalog.  From the new store, after any
    sequence of catalog operations, whether they return or throw, the
    published array exists, holds no gesture twice and references
    allocated gesture objects only: [indexOf] finds a gesture of the
    catalog at one index, and a gesture read from the array is never
    missing. *)
Theorem catalog_well_formed (hash : string) (st : Static) (framed : bool)
    (ops : list CatalogOp) :
  well_formed (performAll ops (newStore hash st framed : World)).
Proof.
  assert (Hnew : well_formed (newStore hash st framed : World)).
  { unfold newStore, exec, mbind, Eff_bind, bind, modThis, modify.
    rewrite sendRequest_eq. exists []. unfold catalog. cbn -[insert delete lookup].
    split; [done|]. split; [apply NoDup_nil_2|]. intros g Hg. by apply elem_of_nil in Hg. }
  revert Hnew. generalize (newStore hash st framed : World). clear hash st framed.
  induction ops as [|op ops IH]; intros w Hw; [done|].
  apply IH. by apply perform_well_formed.
Qed.


(** ** A console line *)

(** X19: a console line from the device.  The console event whose body
    does not come from the simulator always returns, marks the store
    connected and leaves the window as it was.  A line in which
    [parseString] found no sample changes nothing else; a line with a
    sample feeds one frame, however many markers the line holds: the tick
    advances by one and the conditioned sample is pushed on the readings,
    the oldest reading being dropped when there are more than 30. *)
Theorem console_line_feeds (data : ExtensionMessage) (strBuf : string) (w : World) :
  msg_event data = Some "extconsole" →
  msg_cons_body data = Some (false, strBuf) →
  let w' := exec (receiveMessage data) w in
  let line := parseString strBuf in
  (receiveMessage data w).1 = Normal tt ∧
  connected (this w') = Some true ∧
  host w' = host w ∧
  (acc line = false → this w' = set_connected (Some true) (this w)) ∧
  (acc line = true →
     let x := lowPass (accelX (accVec line)) (filterX (this w)) in
     let y := lowPass (accelY (accVec line)) (filterY (this w)) in
     let z := lowPass (accelZ (accVec line)) (filterZ (this w)) in
     let pushed := push (mkReading x y z) (readings (this w)) in
     latestTimestamp (this w') = latestTimestamp (this w) + 1 ∧
     readings (this w') = (if READING_HISTORY_LIMIT <? Z.of_nat (length pushed)
                           then shift pushed else pushed)).
Proof.
  intros Hev Hbody. cbn zeta.
  assert (Hcall : receiveMessage data w = onSerialData strBuf w).
  { unfold receiveMessage. rewrite Hev, Hbody. by run_sync. }
  unfold exec. rewrite Hcall.
  destruct (onSerialData_frame strBuf w) as (Hret & Hh & _ & _ & _ & Hcon).
  cbn zeta in *. unfold exec in *.
  split; [done|]. split; [done|]. split; [done|]. clear Hret Hh Hcon Hcall.
  split; intros Hacc.
  - unfold onSerialData. run_sync. rewrite Hacc. by run_sync.
  - destruct (serialHandler_stream (parseString strBuf) w) as (Hret & Hr & Ht & _).
    cbn zeta in *. rewrite <- Hr, <- Ht. clear Hr Ht.
    unfold onSerialData, exec in *. run_sync. rewrite Hacc.
    destruct (serialHandler (parseString strBuf) w) as [c w1]. cbn in Hret. subst c.
    by run_sync.
Qed.


(** ** The ids of the gestures *)

Lemma ids_insert (l : list (Gesture Example)) (r : nat) (o x : Gesture Example) :
  l !! r = Some o → gestureID x = gestureID o →
  gestureID <$> <[r := x]> l = gestureID <$> l.
Proof.
  intros Hr Hx. rewrite list_fmap_insert. apply list_insert_id.
  rewrite list_lookup_fmap, Hr. cbn. by rewrite Hx.
Qed.

(* The operations other than [addGesture] and [loadBlocks] build no
   gesture and write no id. *)
Lemma perform_keeps_ids (op : CatalogOp) (w : World) (arr : list loc) :
  catalog w = Some arr → constructs op = true → op ≠ OpAddGesture →
  let w' := exec (perform op) w in
  gestureID <$> objects (host w') = gestureID <$> objects (host w) ∧
  gestureStatic (host w') = gestureStatic (host w).
Proof.
  intros Harr Hop Hadd. cbn zeta.
  destruct op as [|g| |code json|g x|g x|gid]; cbn [perform]; try done.
  - destruct (deleteGesture_heap g w arr Harr) as (Ho & Hst & _). cbn zeta in *.
    by rewrite Ho, Hst.
  - unfold catalog in Harr.
    unfold deleteIfGestureEmpty, slice, newArray, readArray, writeArray, readObject.
    run. rewrite Harr. by paths.
  - unfold catalog in Harr.
    unfold addSample, slice, newArray, readArray, writeObject, readObject, updateModel.
    run. rewrite Harr. run.
    rewrite (lookup_push_old _ _ _ _ Harr). run.
    rewrite lookup_push_new. run.
    destruct (js_get arr _) as [r|]; run; [|done].
    destruct (objects (host w) !! r) as [o|] eqn:Ho; run; [|done].
    rewrite list_lookup_insert_eq by (by apply lookup_lt_Some in Ho). run.
    destruct (js_get (models (this w)) _) as [m|]; run;
      [|split; [by apply (ids_insert _ _ o)|done]].
    rewrite markDirty_eq. run. rewrite list_insert_insert_eq.
    destruct (hasBeenModified (this w)); run;
      (split; [by apply (ids_insert _ _ o)|done]).
  - unfold catalog in Harr.
    unfold deleteSample, slice, newArray, readArray, writeObject, readObject, updateModel.
    run. rewrite Harr. run.
    rewrite (lookup_push_old _ _ _ _ Harr). run.
    destruct (js_get arr _) as [r|] eqn:Hr; run; [|done].
    destruct (objects (host w) !! r) as [o|] eqn:Ho; run; [|done].
    rewrite lookup_push_new. run. rewrite Hr. run. rewrite Ho. run.
    rewrite list_lookup_insert_eq by (by apply lookup_lt_Some in Ho). run.
    destruct (js_get (models (this w)) _) as [m|]; run;
      [|split; [by apply (ids_insert _ _ o)|done]].
    rewrite markDirty_eq. run. rewrite list_insert_insert_eq.
    destruct (hasBeenModified (this w)); run;
      (split; [by apply (ids_insert _ _ o)|done]).
  - unfold setCurrentGesture, readArray, updateModel, currentModel. run.
    destruct (arrays (host w) !! gestures (this w)) as [arr'|]; run; [|done].
    pose proof (mapM_state readObject arr' w readObject_state) as Hst.
    destruct (mapM readObject arr' w) as [[gs|e] w1]; cbn in Hst; subst w1; run; [|done].
    unfold readObject. by paths.
Qed.

(* The counter stays above the ids along the operations that construct
   gestures with [new Gesture()] only. *)
Lemma perform_ids_below (nextId : Static → Z) (op : CatalogOp) (w : World) :
  numbered nextId → constructs op = true → well_formed w →
  ids_below nextId w → ids_below nextId (exec (perform op) w).
Proof.
  intros Hnum Hop (arr & Harr & _) Hbelow.
  assert (Hcase : op = OpAddGesture ∨ op ≠ OpAddGesture)
    by (destruct op; (by left) || (by right)).
  destruct Hcase as [->|Hadd].
  { by apply (addGesture_ids_below nextId w arr). }
  destruct (perform_keeps_ids op w arr Harr Hop Hadd) as [Hids Hst]. cbn zeta in *.
  assert (Hin : ∀ w' : World, ids_below nextId w' ↔
            ∀ i, i ∈ gestureID <$> objects (host w') →
                 i < nextId (gestureStatic (host w'))).
  { intros w'. unfold ids_below. split.
    - intros Hb i Hi. apply list_elem_of_fmap in Hi as (o & -> & Ho). by apply Hb.
    - intros Hb o Ho. apply Hb. apply list_elem_of_fmap. by exists o. }
  apply Hin. rewrite Hids, Hst. by apply Hin.
Qed.

Lemma ids_below_reachable (nextId : Static → Z) (hash : string) (st : Static)
    (framed : bool) (ops : list CatalogOp) :
  numbered nextId → forallb constructs ops = true →
  ids_below nextId (performAll ops (newStore hash st framed : World)).
Proof.
  intros Hnum.
  assert (Hnew : well_formed (newStore hash st framed : World) ∧
                 ids_below nextId (newStore hash st framed : World)).
  { unfold well_formed, ids_below, catalog.
    unfold newStore, exec, mbind, Eff_bind, bind, modThis, modify.
    rewrite sendRequest_eq. cbn -[insert delete lookup].
    split; [|intros o Ho; by apply elem_of_nil in Ho].
    exists []. split; [done|]. split; [apply NoDup_nil_2|].
    intros g Hg. by apply elem_of_nil in Hg. }
  revert Hnew. generalize (newStore hash st framed : World). clear hash st framed.
  induction ops as [|op ops IH]; intros w [Hw Hb] Hops; [done|].
  cbn [forallb] in Hops. apply andb_prop in Hops as [Hop Hops].
  apply IH; [|done]. split; [by apply perform_well_formed|by apply perform_ids_below].
Qed.

End Properties.

(** * The scenarios of the specification *)

Import Scenario.

(** Thirty-five frames into the new store. *)
Lemma history_buffer_window_witness :
  let s' := this (feedAll (frame <$> seq 0 35) fresh) in
  readings s' = drop 5 (smoothed 0 0 0 (frame <$> seq 0 35)) ∧ latestTimestamp s' = 35.
Proof.
  assert (Hlen : (length (readings (this fresh)) ≤ 30)%nat) by (vm_compute; lia).
  destruct (history_buffer_window (frame <$> seq 0 35) fresh Hlen) as (_ & _ & _ & H35).
  apply H35; reflexivity.
Defined.

(** A store at tick 12 that holds three readings, of ticks 10, 11 and 12,
    and the match from 5 to 10. *)
Definition matched : @GestureStore Recorder :=
  set_matches [mkMatch 5 10]
    (set_latestTimestamp 12
       (set_readings (accVec <$> (frame <$> seq 0 3)) (this fresh))).

Lemma isMatch_inclusive_witness :
  isMatch matched 0 = true ∧ isMatch matched 1 = false.
Proof.
  destruct (isMatch_inclusive matched 0) as [_ H0].
  destruct (isMatch_inclusive matched 1) as [_ H1].
  split.
  - apply H0; [reflexivity | vm_compute; tauto].
  - apply H1; [reflexivity | vm_compute; tauto].
Defined.

(** A gesture that is not in the catalog. *)
Lemma deleteGesture_absent_witness :
  catalog one = Some [0%nat] ∧ deleteGesture 5%nat one = (Normal tt, one).
Proof.
  split; [reflexivity|].
  apply (deleteGesture_absent 5%nat one [0%nat]); [reflexivity|].
  intros Hin. apply elem_of_cons in Hin as [Hin|Hin]; [lia|].
  by apply elem_of_nil in Hin.
Defined.




(** Two samples for the gesture of [one]. *)
Lemma addSample_front_witness :
  ∃ o2, objects (host (exec (addSample 0%nat 8%nat) (exec (addSample 0%nat 7%nat) one)))
          !! 0%nat = Some o2 ∧
        samples o2 = [8%nat; 7%nat].
Proof.
  assert (Hin : 0%nat ∈ [0%nat]) by left.
  destruct (addSample_front 0%nat 7%nat one [0%nat] (mkGesture 1 "gesture" [] 0%nat)
              (mkRecorder 2 "gesture" [] []) eq_refl Hin eq_refl eq_refl)
    as (_ & _ & _ & _ & _ & _ & _ & Htwo).
  exact (Htwo 8%nat eq_refl).
Defined.

(** C2 as stated fails: [addGesture] pushes onto the array that the new
    store published. *)
Lemma addGesture_in_place_counterexample : ¬ keeps_published addGesture fresh.
Proof. vm_compute. discriminate. Defined.

Lemma catalog_copy_on_write_witness :
  keeps_published (addSample 0%nat 7%nat) one ∧
  arrays (host (exec (deleteGesture 0%nat) one)) !! gestures (this one) = Some [].
Proof.
  assert (Hin : 0%nat ∈ [0%nat]) by left.
  destruct (catalog_copy_on_write one [0%nat] eq_refl) as (Hadd & _ & _ & _ & Hdel).
  split; [exact (proj1 (Hadd 0%nat 7%nat))|].
  exact (proj1 (proj2 (Hdel 0%nat Hin))).
Defined.

(** C9 as stated fails: the serialised empty catalog is [[]]; hydrating
    the store [one] from it leaves no gesture and no matcher. *)
Lemma loadBlocks_empty_array_counterexample :
  let w := exec (loadBlocks "code" (Some "[]")) one in
  catalog one = Some [0%nat] ∧ length (models (this one)) = 1%nat ∧
  catalog w = Some [] ∧ models (this w) = [].
Proof. vm_compute. repeat split. Defined.

(** Hydrating [one] from two records. *)
Lemma loadBlocks_hydrate_witness :
  loadBlocks "code" (Some "null") one = (Normal tt, one) ∧
  length (models (this (exec (loadBlocks "code" (Some "[{},{}]")) one))) = 2%nat.
Proof.
  destruct (loadBlocks_hydrate "code" one) as (_ & _ & Hfalsy & Harray).
  split; [exact (Hfalsy "null" JNull eq_refl eq_refl)|].
  assert (Htext : "[{},{}]" ≠ EmptyString) by discriminate.
  destruct (Harray "[{},{}]" [JObj []; JObj []]
              [mkGesture 0 EmptyString [] 0%nat; mkGesture 0 EmptyString [] 0%nat] 2
              Htext eq_refl eq_refl) as (_ & _ & Hm & _).
  cbn zeta in Hm. rewrite Hm. reflexivity.
Defined.

(** The response to the [extinit] request of the new store, and two
    duplicates of it. *)
Definition initResponse : ExtensionMessage :=
  mkMessage "pxtpkgext" None "0.0" None None.

Lemma response_consumed_once_witness :
  let w' := receiveAll [initResponse; initResponse] (exec (receiveMessage initResponse) fresh) in
  idToType (this fresh) !! "0.0" = Some "extinit" ∧
  idToType (this w') !! "0.0" = None ∧
  receiveMessage initResponse w' = (Normal tt, w').
Proof.
  split; [reflexivity|].
  destruct (response_consumed_once initResponse fresh eq_refl) as (_ & _ & _ & Honce).
  apply Honce. intros n Hn Heq. cbn in Heq.
  change (String.append "0." (pretty n) = String.append "0." (pretty 0%nat)) in Heq.
  injection Heq as Heq. apply pretty_nat_inj in Heq.
  change (randomCount (host fresh)) with 1%nat in Hn. lia.
Defined.

(** C3 as stated fails: a second call of [markDirty], 1000 ms after the
    first, does not reset the timer: it stays due at 2000, and the flush is
    posted 1000 ms after the second call. *)
Lemma markDirty_restart_counterexample :
  let w := advance 1000 (exec markDirty fresh) in
  ¬ restarts_delay w ∧
  clock (host w) = 1000 ∧
  timers (host (exec markDirty w)) = [(1%nat, 2000)] ∧
  flushes (advance 1000 (exec markDirty w)) = 1%nat.
Proof.
  cbn zeta. split; [|by vm_compute].
  intros [id Hid]. vm_compute in Hid. congruence.
Defined.

(** Three calls within the delay, then the timer fires. *)
Lemma markDirty_debounce_witness :
  flushes (advance 1000 (play [Call; Wait 500; Call; Wait 700; Call] fresh)) = 1%nat.
Proof.
  assert (Hidle : idle fresh) by (split; reflexivity).
  assert (Hg : grounded fresh).
  { exists []. split; [reflexivity|]. intros g Hin. by apply elem_of_nil in Hin. }
  assert (Hw : waited [Wait 500; Call; Wait 700; Call] < 2000
               ≤ waited [Wait 500; Call; Wait 700; Call] + Z.of_nat 1000)
    by (cbn; lia).
  destruct (markDirty_debounce [Wait 500; Call; Wait 700; Call] 1000 fresh
              Hidle Hg eq_refl Hw) as (_ & _ & _ & _ & Hone & _).
  exact Hone.
Defined.

(** ** The further properties at work *)

(** The gesture of [one] with two samples; the store is dirty. *)
Definition sampled : @World nat Recorder Z :=
  exec (addSample 0%nat 8%nat) (exec (addSample 0%nat 7%nat) one).

(** The second of two gestures current and the first deleted: the current
    index is past the end. *)
Definition stale : @World nat Recorder Z := exec (deleteGesture 0%nat) two.

(** Deleting a sample that the gesture holds, and one that it does not. *)
Lemma deleteSample_removes_witness :
  (∃ o, objects (host (exec (deleteSample 0%nat 8%nat) sampled)) !! 0%nat = Some o ∧
        samples o = [7%nat]) ∧
  (∃ o, objects (host (exec (deleteSample 0%nat 9%nat) sampled)) !! 0%nat = Some o ∧
        samples o = [8%nat]).
Proof.
  assert (Hin : 0%nat ∈ [0%nat]) by left.
  pose (o := mkGesture 1 "gesture" [8%nat; 7%nat] 8%nat).
  pose (m := mkRecorder 2 "gesture" [([8%nat; 7%nat], 0); ([7%nat], 0)] []).
  split.
  - destruct (deleteSample_removes 0%nat 8%nat sampled [0%nat] o m
                eq_refl Hin eq_refl eq_refl) as (_ & Ho & Hfirst & _).
    eexists. split; [exact Ho|]. cbn [samples].
    apply (Hfirst [] [7%nat] eq_refl). intros Hnil. by apply elem_of_nil in Hnil.
  - destruct (deleteSample_removes 0%nat 9%nat sampled [0%nat] o m
                eq_refl Hin eq_refl eq_refl) as (_ & Ho & _ & Habsent & _).
    eexists. split; [exact Ho|]. cbn [samples].
    apply Habsent. intros Hx. cbn in Hx.
    repeat (apply elem_of_cons in Hx as [Hx|Hx]; [lia|]). by apply elem_of_nil in Hx.
Defined.

(** A gesture that the catalog of [one] does not hold. *)
Lemma edit_absent_gesture_throws_witness :
  (addSample 5%nat 7%nat one).1 = Thrown TypeError ∧
  (deleteSample 5%nat 7%nat one).1 = Thrown TypeError.
Proof.
  assert (Hout : 5%nat ∉ [0%nat]).
  { intros Hx. apply elem_of_cons in Hx as [Hx|Hx]; [lia|]. by apply elem_of_nil in Hx. }
  destruct (edit_absent_gesture_throws 5%nat 7%nat one [0%nat] eq_refl Hout)
    as (Hadd & Hdel & _).
  cbn zeta in *. rewrite Hadd, Hdel. split; reflexivity.
Defined.

(** A sample for the gesture that is left in [stale]. *)
Lemma addSample_without_matcher_witness :
  let w' := exec (addSample 1%nat 7%nat) stale in
  (addSample 1%nat 7%nat stale).1 = Thrown TypeError ∧
  objects (host w') !! 1%nat = Some (mkGesture 2 "gesture" [7%nat] 0%nat) ∧
  gestures (this w') = gestures (this stale).
Proof.
  assert (Hin : 1%nat ∈ [1%nat]) by left.
  destruct (addSample_without_matcher 1%nat 7%nat stale [1%nat]
              (mkGesture 2 "gesture" [] 0%nat) eq_refl Hin eq_refl eq_refl)
    as (Hthrow & Hthis & _ & Ho & _).
  cbn zeta in *. split; [exact Hthrow|]. split; [exact Ho|]. by rewrite Hthis.
Defined.

(** The ids 2 and 9 in the catalog of [two]. *)
Lemma setCurrentGesture_resolves_witness :
  curGestureIndex (this (exec (setCurrentGesture 2) (exec (setCurrentGesture 1) two))) = 1 ∧
  (setCurrentGesture 9 two).1 = Thrown TypeError ∧
  curGestureIndex (this (exec (setCurrentGesture 9) two)) = -1.
Proof.
  pose (g1 := mkGesture 1 "gesture" ([] : list nat) 0%nat).
  pose (g2 := mkGesture 2 "gesture" ([] : list nat) 0%nat).
  assert (Hgs : ∀ w : @World nat Recorder Z,
            objects (host w) = [g1; g2] →
            Forall2 (λ r g, objects (host w) !! r = Some g) [0%nat; 1%nat] [g1; g2]).
  { intros w Ho. rewrite Ho. repeat constructor. }
  destruct (setCurrentGesture_resolves 9 two [0%nat; 1%nat] [g1; g2] eq_refl (Hgs two eq_refl))
    as [Hnone _].
  split; [reflexivity|].
  rewrite Hnone; [split; reflexivity|].
  intros g Hg. repeat (apply elem_of_cons in Hg as [->|Hg]; [discriminate|]).
  by apply elem_of_nil in Hg.
Defined.

(** The three cases of [deleteIfGestureEmpty]. *)
Lemma deleteIfGestureEmpty_discards_witness :
  catalog (exec deleteIfGestureEmpty one) = Some [] ∧
  deleteIfGestureEmpty sampled = (Normal tt, sampled) ∧
  deleteIfGestureEmpty stale = (Thrown TypeError, stale).
Proof.
  destruct (deleteIfGestureEmpty_discards one [0%nat] eq_refl) as (_ & _ & Hone).
  destruct (deleteIfGestureEmpty_discards sampled [0%nat] eq_refl) as (_ & _ & Hsampled).
  destruct (deleteIfGestureEmpty_discards stale [1%nat] eq_refl) as (_ & Hstale & _).
  cbn zeta in *. split; [|split].
  - destruct (Hone 0%nat (mkGesture 1 "gesture" [] 0%nat) eq_refl eq_refl) as [_ Hempty].
    unfold exec. rewrite (Hempty eq_refl). reflexivity.
  - destruct (Hsampled 0%nat (mkGesture 1 "gesture" [8%nat; 7%nat] 8%nat) eq_refl eq_refl)
      as [Hfull _].
    apply Hfull. discriminate.
  - apply Hstale; [discriminate | reflexivity].
Defined.

(** The second gesture of [two]. *)
Lemma deleteGesture_removes_witness :
  let w' := exec (deleteGesture 1%nat) two in
  catalog w' = Some [0%nat] ∧ models (this w') = [mkRecorder 2 "gesture" [] []].
Proof.
  assert (Hout : 1%nat ∉ [0%nat]).
  { intros Hx. apply elem_of_cons in Hx as [Hx|Hx]; [lia|]. by apply elem_of_nil in Hx. }
  destruct (deleteGesture_removes 1%nat two [0%nat] [] eq_refl Hout)
    as (_ & Hc & Hm & _).
  cbn zeta in *. split; [exact Hc|]. rewrite Hm. reflexivity.
Defined.

(** A second gesture added to [one] and deleted again. *)
Lemma add_then_delete_restores_witness :
  let w' := exec (deleteGesture 1%nat) (exec addGesture one) in
  catalog w' = Some [0%nat] ∧ models (this w') = models (this one) ∧
  curGestureIndex (this w') = 1.
Proof.
  assert (Hall : ∀ g : nat, g ∈ [0%nat] → (g < length (objects (host one)))%nat).
  { intros g Hg. apply elem_of_cons in Hg as [->|Hg]; [vm_compute; lia|].
    by apply elem_of_nil in Hg. }
  destruct (add_then_delete_restores one [0%nat] eq_refl Hall eq_refl)
    as (Hc & Hm & _ & Hi & _).
  cbn zeta in *. split; [exact Hc|]. split; [exact Hm|]. exact Hi.
Defined.

(** A text that is not JSON, and a number. *)
Lemma loadBlocks_errors_witness :
  loadBlocks "code" (Some "oops") one = (Thrown SyntaxError, one) ∧
  loadBlocks "code" (Some "7") one = (Thrown TypeError, one).
Proof.
  assert (Hoops : "oops" ≠ EmptyString) by discriminate.
  assert (H7 : "7" ≠ EmptyString) by discriminate.
  destruct (loadBlocks_errors "code" "oops" one Hoops) as (Hsyntax & _).
  destruct (loadBlocks_errors "code" "7" one H7) as (_ & Htype & _).
  split; [exact (Hsyntax eq_refl)|].
  apply (Htype (JNum 7) eq_refl eq_refl). discriminate.
Defined.

(** The flush of [sampled], and of [one], which is not dirty. *)
Lemma saveBlocksNow_flush_witness :
  let w' := exec saveBlocksNow sampled in
  saveBlocksNow one = (Normal tt, one) ∧
  hasBeenModified (this w') = false ∧
  env_action <$> posted (host w') = ["extinit"; "extwritecode"] ∧
  idToType (this w') !! "0.1" = Some "extwritecode".
Proof.
  destruct (saveBlocksNow_flush one) as [Hclean _].
  destruct (saveBlocksNow_flush sampled) as [_ Hdirty].
  cbn zeta. split; [exact (Hclean eq_refl)|].
  assert (Hgs : Forall2 (λ r g, objects (host sampled) !! r = Some g) [0%nat]
                  [mkGesture 1 "gesture" [8%nat; 7%nat] 8%nat]).
  { repeat constructor. }
  unfold exec. rewrite (Hdirty [0%nat] _ eq_refl eq_refl Hgs).
  split; [reflexivity|]. split; reflexivity.
Defined.

(** A direct call of [saveBlocks], 1000 ms after [markDirty]. *)
Lemma saveBlocks_restarts_witness :
  let w := advance 1000 (exec markDirty fresh) in
  timers (host w) = [(1%nat, 2000)] ∧
  timers (host (exec saveBlocks w)) = [(2%nat, 3000)].
Proof.
  cbn zeta. split; [reflexivity|].
  assert (Hsingle : single_timer (advance 1000 (exec markDirty fresh))).
  { right. exists 1%nat, 2000. split; reflexivity. }
  destruct (saveBlocks_restarts _ Hsingle) as (Heq & _).
  cbn zeta in Heq.
  exact (eq_trans (f_equal (λ r, timers (host r.2)) Heq) eq_refl).
Defined.

(** The response to a write request of the new store. *)
Definition writeResponse : ExtensionMessage :=
  mkMessage "pxtpkgext" None "0.1" None None.

Lemma request_response_round_trip_witness :
  let sent := exec (sendRequest "extwritecode" None) fresh in
  idToType (this sent) !! "0.1" = Some "extwritecode" ∧
  idToType (this (exec (receiveMessage writeResponse) sent)) = idToType (this fresh).
Proof.
  assert (Hid : msg_id writeResponse = Math_random (randomCount (host fresh)))
    by (vm_compute; reflexivity).
  assert (Hnew : idToType (this fresh) !! msg_id writeResponse = None)
    by (vm_compute; reflexivity).
  destruct (request_response_round_trip "extwritecode" None writeResponse fresh
              eq_refl Hid Hnew) as (Hpending & Hother & _).
  cbn zeta in *. split; [exact Hpending|].
  unfold exec at 1. rewrite Hother by discriminate. reflexivity.
Defined.

(** The handshake of [fresh]. *)
Lemma init_handshake_witness :
  env_action <$> posted (host (exec (receiveMessage initResponse) fresh))
    = ["extinit"; "extdatastream"; "extreadcode"].
Proof.
  assert (Hid : msg_id initResponse = Math_random 0) by (vm_compute; reflexivity).
  destruct (init_handshake "#gestures" 1 true initResponse eq_refl Hid)
    as (_ & _ & _ & Hposted & _).
  exact Hposted.
Defined.

(** Three frames into the new store, which has no matcher. *)
Lemma frames_leave_catalog_witness :
  let w' := feedAll (frame <$> seq 0 3) fresh in
  outside_stream w' = outside_stream fresh ∧ matches (this w') = [].
Proof.
  destruct (frames_leave_catalog (frame <$> seq 0 3) fresh) as (Hout & _ & _ & Hnone).
  cbn zeta in *. destruct (Hnone eq_refl) as [_ Hm].
  split; [exact Hout | exact Hm].
Defined.

(** The orientation after the frames 0, 1 and 2. *)
Lemma currentOrientation_latest_witness :
  currentOrientation (this (feedAll (frame <$> seq 0 3) fresh))
    = Some (mkReading 1.25 2.5 (-1.25)).
Proof.
  assert (Hlen : (length (readings (this fresh)) ≤ 30)%nat) by (vm_compute; lia).
  assert (Hne : frame <$> seq 0 3 ≠ []) by discriminate.
  rewrite (currentOrientation_latest (frame <$> seq 0 3) fresh Hlen Hne).
  reflexivity.
Defined.

(** The editor is shown while [extinit] is pending. *)
Definition shown : ExtensionMessage :=
  mkMessage "pxtpkgext" (Some "extshown") EmptyString None None.

Lemma events_keep_pending_witness :
  is_Some (idToType (this (exec (receiveMessage shown) fresh)) !! "0.0").
Proof.
  destruct (events_keep_pending shown fresh eq_refl) as (Hkeep & _).
  apply Hkeep. by exists "extinit".
Defined.

(** A line with a marker in second place, and one without marker. *)
Lemma parseString_marker_witness :
  parseString "x A 1 -2 3" = mkSensorData true (mkReading 1 (-2) 3) ∧
  parseString "B 1 2 3" = mkSensorData false (mkReading 0 0 0).
Proof.
  destruct (parseString_marker "x A 1 -2 3") as [_ Hmarker].
  destruct (parseString_marker "B 1 2 3") as [Hnone _].
  split.
  - rewrite (Hmarker ["x"] ["1"; "-2"; "3"] eq_refl); [reflexivity| |].
    + intros tok Hx. apply elem_of_cons in Hx as [->|Hx]; [discriminate|].
      by apply elem_of_nil in Hx.
    + intros tok Hx. by apply elem_of_nil in Hx.
  - apply Hnone. intros tok Hx. cbn in Hx.
    repeat (apply elem_of_cons in Hx as [->|Hx]; [discriminate|]).
    by apply elem_of_nil in Hx.
Defined.

(** A device line with two markers: one frame, the last. *)
Definition deviceLine : ExtensionMessage :=
  mkMessage "pxtpkgext" (Some "extconsole") EmptyString
    (Some (false, "A 1 2 3 A 4 6 8")) None.

Lemma console_line_feeds_witness :
  let w' := exec (receiveMessage deviceLine) fresh in
  latestTimestamp (this w') = 1 ∧ readings (this w') = [mkReading 2 3 4] ∧
  connected (this w') = Some true.
Proof.
  destruct (console_line_feeds deviceLine "A 1 2 3 A 4 6 8" fresh eq_refl eq_refl)
    as (_ & Hcon & _ & _ & Hfeed).
  cbn zeta in *. destruct (Hfeed eq_refl) as [Htick Hread].
  split; [exact Htick|]. split; [|exact Hcon].
  rewrite Hread. reflexivity.
Defined.

(** ** The model at work *)

(** The sensor line format: the marker [A] opens three integers; other
    tokens are skipped and missing fields read as [NaN]. *)
Example parseString_frame :
  parseString "x A 1 -2 3" = mkSensorData true (mkReading 1 (-2) 3) ∧
  parseString "A 4" = mkSensorData true (mkReading 4 nan nan) ∧
  acc (parseString "B 1 2 3") = false.
Proof. by vm_compute. Qed.

(** One gesture added and deleted again: both arrays are empty. *)
Example add_then_delete :
  let w := exec (deleteGesture 0%nat) one in
  catalog w = Some [] ∧ models (this w) = [] ∧ hasBeenModified (this w) = true.
Proof. by vm_compute. Qed.

(** With the second of two gestures current, deleting the first leaves the
    current index past the end, and [deleteIfGestureEmpty] throws. *)
Example stale_current_index :
  let w := exec (deleteGesture 0%nat) two in
  curGestureIndex (this w) = 1 ∧ catalog w = Some [1%nat] ∧
  (deleteIfGestureEmpty w).1 = Thrown TypeError.
Proof. by vm_compute. Qed.
